(** * The streaming relay of the Slack bot ([src/app.js])

    A shallow embedding of the relay between the chat platform and the
    agent backend: the connection life cycle with its reconnect timer, the
    handler of inbound socket frames, the rate-limited flushing of
    streamed fragments, and the line-wise splitting of oversized answers.

    Conventions of the embedding.
    - A JavaScript string is a [string]; every character stands for one
      UTF-16 code unit below 256, and [String.length] is [.length].
    - The module-level [let] variables of the program are the fields of
      [Connection] and [ActiveTurn]; every handler is a computation in
      the monad [M], which threads them together with the script of the
      platform's answers and the history of effects.
    - A handler runs from its first statement to its last before the next
      event is delivered: a platform call is answered at once by the next
      entry of the script.  Overlapping handlers are outside the model. *)

From Stdlib Require Import String Ascii List ZArith Lia Bool Arith DecimalString.
Import ListNotations.
Open Scope string_scope.
Open Scope list_scope.

(** ** JavaScript built-ins used by the program *)

Module JS.

Definition LF : string := String (ascii_of_nat 10) EmptyString.

(** [s.includes(search)] *)
Fixpoint includes (s search : string) : bool :=
  String.prefix search s ||
  match s with
  | EmptyString => false
  | String _ s' => includes s' search
  end.

(** White space and line terminators among the code units below 256:
    TAB, LF, VT, FF, CR, SPACE and NBSP. *)
Definition isWhiteSpace (c : ascii) : bool :=
  let n := nat_of_ascii c in
  ((9 <=? n)%nat && (n <=? 13)%nat) || (n =? 32)%nat || (n =? 160)%nat.

Fixpoint trimStart (s : string) : string :=
  match s with
  | EmptyString => EmptyString
  | String c s' => if isWhiteSpace c then trimStart s' else s
  end.

Fixpoint trimEnd (s : string) : string :=
  match s with
  | EmptyString => EmptyString
  | String c s' =>
      match trimEnd s' with
      | EmptyString => if isWhiteSpace c then EmptyString else String c EmptyString
      | t => String c t
      end
  end.

(** [s.trim()] *)
Definition trim (s : string) : string := trimEnd (trimStart s).

(** [s.split('\n')]: never empty, [''.split('\n')] is [['']]. *)
Fixpoint split_lines (s : string) : list string :=
  match s with
  | EmptyString => [EmptyString]
  | String c s' =>
      if Ascii.eqb c (ascii_of_nat 10) then EmptyString :: split_lines s'
      else match split_lines s' with
           | l :: ls => String c l :: ls
           | [] => [String c EmptyString]
           end
  end.

(** [parts.join('\n')] *)
Definition join_lines (parts : list string) : string := String.concat LF parts.

(** Decimal rendering of an integer, as [String(n)] gives it. *)
Definition Number_toString (n : Z) : string := NilZero.string_of_int (Z.to_int n).

(** A value produced by [JSON.parse].  Numbers are restricted to
    integers; an object lists its members once per key. *)
#[warnings="-register-all"]
Inductive json : Type :=
| JNull
| JBool (b : bool)
| JNumber (n : Z)
| JString (s : string)
| JArray (items : list json)
| JObject (members : list (string * json)).

Fixpoint lookup (key : string) (members : list (string * json)) : option json :=
  match members with
  | [] => None
  | (k, v) :: rest => if String.eqb k key then Some v else lookup key rest
  end.

(** [ToBoolean]; [None] is [undefined]. *)
Definition truthy (v : option json) : bool :=
  match v with
  | None | Some JNull => false
  | Some (JBool b) => b
  | Some (JNumber n) => negb (n =? 0)%Z
  | Some (JString s) => negb (String.eqb s EmptyString)
  | Some (JArray _) | Some (JObject _) => true
  end.

(** [v === s] for a string literal [s]. *)
Definition strict_eq (v : option json) (s : string) : bool :=
  match v with
  | Some (JString t) => String.eqb t s
  | _ => false
  end.

(** [ToString] of a parsed value; [None] is a thrown [TypeError] (an
    object whose own member [toString] hides the inherited method). *)
Fixpoint ToString (v : json) : option string :=
  match v with
  | JNull => Some "null"
  | JBool true => Some "true"
  | JBool false => Some "false"
  | JNumber n => Some (Number_toString n)
  | JString s => Some s
  | JArray items =>
      (fix join (l : list json) : option string :=
         match l with
         | [] => Some EmptyString
         | x :: rest =>
             let here := match x with JNull => Some EmptyString | _ => ToString x end in
             match rest with
             | [] => here
             | _ :: _ =>
                 match here, join rest with
                 | Some a, Some b => Some (a ++ "," ++ b)%string
                 | _, _ => None
                 end
             end
         end) items
  | JObject members =>
      match lookup "toString" members with
      | Some _ => None
      | None => Some "[object Object]"
      end
  end.

(** [ToString] of a possibly [undefined] value, as a template literal
    applies it. *)
Definition ToString_opt (v : option json) : option string :=
  match v with
  | None => Some "undefined"
  | Some j => ToString j
  end.

End JS.
Import JS.

(** ** Constants of the program *)

Definition MAX_RECONNECT_ATTEMPTS : Z := 5.
Definition RECONNECT_DELAY : Z := 1000.
Definition updateInterval : Z := 500.
Definition MAX_LENGTH : nat := 3000.
Definition CONNECTION_MARKER : string := "Connected to ANA Multi-Agent".

(** The texts shown to the user, with the bytes the source file has for
    their leading symbol; no statement depends on their length. *)
Definition ERROR_PREFIX : string := "âŒ Error: ".
Definition GENERIC_FAILURE : string :=
  "âŒ Sorry, there was an error processing your request.".
Definition THINKING : string := "ðŸ¤” Thinking...".

(** ** State of the program and of its environment *)

Inductive readyState : Type := CONNECTING | OPEN | CLOSING | CLOSED.

(** The object [say] resolves to; [text] is the property that
    [handleChatResponse] adds to it. *)
Record Message : Type := mkMessage {
  channel : string;
  ts : string;
  text : option string
}.

(** A thrown value, seen through the properties the program reads:
    [error.code], [parseInt(error.retryAfter)] ([None] is [NaN]) and
    [error.message]. *)
Record exn : Type := mkExn {
  code : option string;
  retryAfter : option Z;
  message : string
}.

Definition TypeError : exn :=
  {| code := None; retryAfter := None; message := "TypeError" |}.

Definition rate_limited (error : exn) : bool :=
  match code error with
  | Some c => String.eqb c "rate_limited"
  | None => false
  end.

(** How the platform answers one call. *)
Inductive api_result : Type :=
| Accepted
| Rejected (error : exn).

(** The two platform calls; [blocks] always repeats [text] in one
    [mrkdwn] section and is left out. *)
Inductive call : Type :=
| chat_update (channel ts text : string)
| chat_postMessage (channel thread_ts text : string).

Inductive effect : Type :=
| Platform (c : call) (r : api_result)
| Wait (ms : Z)
| SetTimeout (ms : Z)
| NewWebSocket (id : nat)
| WsSend (content : string)
| Say (text : string)
| ConsoleLog (line : string)
| ConsoleError (line : string).

Record Connection : Type := mkConnection {
  ws : option nat;
  reconnectAttempts : Z
}.

Record ActiveTurn : Type := mkActiveTurn {
  currentMessage : option Message;
  messageContent : string;
  lastUpdateTime : Z;
  isStreaming : bool
}.

(** The program's variables and what surrounds them: the ready state of
    every socket created so far, the number of reconnect timers not yet
    fired, the answers the platform will give to the next calls (every
    call after the script is accepted), and the effects so far, newest
    first. *)
Record world : Type := mkWorld {
  connection : Connection;
  activeTurn : ActiveTurn;
  sockets : list readyState;
  timers : nat;
  platform : list api_result;
  history : list effect
}.

Definition with_connection (f : Connection -> Connection) (w : world) : world :=
  mkWorld (f (connection w)) (activeTurn w) (sockets w) (timers w) (platform w) (history w).
Definition with_activeTurn (f : ActiveTurn -> ActiveTurn) (w : world) : world :=
  mkWorld (connection w) (f (activeTurn w)) (sockets w) (timers w) (platform w) (history w).
Definition with_sockets (f : list readyState -> list readyState) (w : world) : world :=
  mkWorld (connection w) (activeTurn w) (f (sockets w)) (timers w) (platform w) (history w).
Definition with_timers (f : nat -> nat) (w : world) : world :=
  mkWorld (connection w) (activeTurn w) (sockets w) (f (timers w)) (platform w) (history w).
Definition with_platform (f : list api_result -> list api_result) (w : world) : world :=
  mkWorld (connection w) (activeTurn w) (sockets w) (timers w) (f (platform w)) (history w).
Definition with_history (f : list effect -> list effect) (w : world) : world :=
  mkWorld (connection w) (activeTurn w) (sockets w) (timers w) (platform w) (f (history w)).

Definition set_ws (v : option nat) (c : Connection) : Connection :=
  mkConnection v (reconnectAttempts c).
Definition set_reconnectAttempts (v : Z) (c : Connection) : Connection :=
  mkConnection (ws c) v.
Definition set_currentMessage (v : option Message) (t : ActiveTurn) : ActiveTurn :=
  mkActiveTurn v (messageContent t) (lastUpdateTime t) (isStreaming t).
Definition set_messageContent (v : string) (t : ActiveTurn) : ActiveTurn :=
  mkActiveTurn (currentMessage t) v (lastUpdateTime t) (isStreaming t).
Definition set_lastUpdateTime (v : Z) (t : ActiveTurn) : ActiveTurn :=
  mkActiveTurn (currentMessage t) (messageContent t) v (isStreaming t).
Definition set_isStreaming (v : bool) (t : ActiveTurn) : ActiveTurn :=
  mkActiveTurn (currentMessage t) (messageContent t) (lastUpdateTime t) v.

(** ** The monad of handlers: state, exceptions, and divergence of the
    retry loop *)

Inductive outcome (A : Type) : Type :=
| Return (a : A)
| Throw (error : exn)
| Diverge.
Arguments Return {A} a.
Arguments Throw {A} error.
Arguments Diverge {A}.

Definition M (A : Type) : Type := world -> outcome A * world.

Definition ret {A} (a : A) : M A := fun w => (Return a, w).

Definition bind {A B} (m : M A) (k : A -> M B) : M B :=
  fun w =>
    match m w with
    | (Return a, w') => k a w'
    | (Throw e, w') => (Throw e, w')
    | (Diverge, w') => (Diverge, w')
    end.

Definition throw {A} (e : exn) : M A := fun w => (Throw e, w).

Definition diverge {A} : M A := fun w => (Diverge, w).

(** [try { body } catch (error) { handler }] *)
Definition try_catch {A} (body : M A) (handler : exn -> M A) : M A :=
  fun w =>
    match body w with
    | (Throw e, w') => handler e w'
    | r => r
    end.

Definition gets {A} (f : world -> A) : M A := fun w => (Return (f w), w).

Definition modify (f : world -> world) : M unit := fun w => (Return tt, f w).

Declare Scope relay_scope.
Delimit Scope relay_scope with relay.
Notation "x <- c ;; k" := (bind c (fun x => k))
  (at level 61, c at next level, right associativity) : relay_scope.
Notation "c ;; k" := (bind c (fun _ => k))
  (at level 61, right associativity) : relay_scope.
Open Scope relay_scope.

Definition emit (e : effect) : M unit := modify (with_history (cons e)).
Definition console_log (line : string) : M unit := emit (ConsoleLog line).
Definition console_error (line : string) : M unit := emit (ConsoleError line).
Definition assign (f : ActiveTurn -> ActiveTurn) : M unit := modify (with_activeTurn f).

(** One call of the platform API: the next entry of the script answers
    it, and a rejection is thrown at the [await]. *)
Definition platform_call (c : call) : M unit :=
  fun w =>
    match platform w with
    | [] => (Return tt, with_history (cons (Platform c Accepted)) w)
    | r :: rest =>
        let w' := with_history (cons (Platform c r)) (with_platform (fun _ => rest) w) in
        match r with
        | Accepted => (Return tt, w')
        | Rejected e => (Throw e, w')
        end
    end.

(** [obj.key] for the keys the program reads ([content], [type],
    [error]): only [null] throws, only an object can have the member. *)
Definition property (obj : json) (key : string) : M (option json) :=
  match obj with
  | JNull => throw TypeError
  | JObject members => ret (lookup key members)
  | _ => ret None
  end.

(** [currentMessage.channel] and [currentMessage.ts] throw on [null]. *)
Definition deref (m : option Message) : M Message :=
  match m with
  | Some x => ret x
  | None => throw TypeError
  end.

Definition coerce (s : option string) : M string :=
  match s with
  | Some x => ret x
  | None => throw TypeError
  end.

(** ** Rendering helpers *)

(** [handleErrorMessage]: overwrite the target message with the error
    text; whatever fails inside is logged and swallowed. *)
Definition handleErrorMessage (jsonMessage : json) (currentMessage : option Message)
  : M unit :=
  try_catch
    (m <- deref currentMessage ;;
     error <- property jsonMessage "error" ;;
     shown <- coerce (ToString_opt error) ;;
     platform_call (chat_update (channel m) (ts m) (ERROR_PREFIX ++ shown)%string))
    (fun _ => console_error "Error updating error message:").

(** [parseInt(error.retryAfter) || 1] *)
Definition retry_seconds (error : exn) : Z :=
  match retryAfter error with
  | Some n => if (n =? 0)%Z then 1%Z else n
  | None => 1%Z
  end.

(** [updateSlackMessage]: the recursive call of the [rate_limited]
    branch consumes one unit of [fuel]. *)
Fixpoint updateSlackMessage_rec (fuel : nat) (content : string) : M unit :=
  match fuel with
  | O => diverge
  | S fuel' =>
      cm <- gets (fun w => currentMessage (activeTurn w)) ;;
      match cm with
      | None => ret tt
      | Some m =>
          if String.eqb content EmptyString then ret tt
          else
            try_catch
              (platform_call (chat_update (channel m) (ts m) content))
              (fun error =>
                 if rate_limited error then
                   emit (Wait (retry_seconds error * 1000)) ;;
                   updateSlackMessage_rec fuel' content
                 else console_error "Error updating message:")
      end
  end.

(** The recursion of the source has no bound: it goes on as long as the
    platform answers [rate_limited].  The script of a state holds finitely
    many answers, each consumed by one call, and the call after the script
    is accepted: on such a platform one more unit of fuel than the script
    is long is enough for the recursion to end (lemma
    [updateSlackMessage_total]).  A platform that never stops signalling
    rate limits, on which the source does not return, is no script. *)
Definition updateSlackMessage (content : string) : M unit :=
  fun w => updateSlackMessage_rec (S (List.length (platform w))) content w.

(** ** Splitting an oversized answer *)

(** The body of the [for (const line of lines)] loop on the pair
    [(chunks, currentChunk)]. *)
Definition split_step (st : list string * string) (line : string)
  : list string * string :=
  let '(chunks, currentChunk) := st in
  if (MAX_LENGTH <? String.length currentChunk + String.length line + 1)%nat
  then (chunks ++ [currentChunk], line)
  else (chunks,
        if String.eqb currentChunk EmptyString then line
        else (currentChunk ++ LF ++ line)%string).

(** The loop and the final [if (currentChunk) chunks.push(currentChunk)]. *)
Definition split_chunks (content : string) : list string :=
  let '(chunks, currentChunk) :=
    fold_left split_step (split_lines content) ([], EmptyString) in
  if String.eqb currentChunk EmptyString then chunks
  else chunks ++ [currentChunk].

(** The [for (let i = 1; ...)] loop that posts [chunks[i]], [chunks[i+1]],
    ... under the target message. *)
Fixpoint post_chunks (m : Message) (i : nat) (chunks : list string) : M unit :=
  match chunks with
  | [] => ret tt
  | c :: rest =>
      platform_call (chat_postMessage (channel m) (ts m) c) ;;
      console_log ("Posted chunk " ++ Number_toString (Z.of_nat (i + 1)) ++ ":")%string ;;
      post_chunks m (S i) rest
  end.

(** [jsonMessage.content.trim()]: only a string has the method. *)
Definition content_trim (content : option json) : M string :=
  match content with
  | Some (JString s) => ret (trim s)
  | _ => throw TypeError
  end.

(** [handleChatResponse].  [chunks[0]] exists whenever the content is
    longer than [MAX_LENGTH] (lemma [split_chunks_not_nil]). *)
Definition handleChatResponse (jsonMessage : json) (currentMessage : option Message)
  : M unit :=
  try_catch
    (c <- property jsonMessage "content" ;;
     content <- content_trim c ;;
     if String.eqb content EmptyString then ret tt
     else
       console_log "Updating message with content:" ;;
       if (MAX_LENGTH <? String.length content)%nat then
         let chunks := split_chunks content in
         console_log ("Split content into "
                      ++ Number_toString (Z.of_nat (List.length chunks))
                      ++ " chunks")%string ;;
         m <- deref currentMessage ;;
         platform_call (chat_update (channel m) (ts m) (hd EmptyString chunks)) ;;
         console_log "Updated first chunk:" ;;
         post_chunks m 1 (tl chunks) ;;
         assign (set_currentMessage (Some (mkMessage (channel m) (ts m) (Some content)))) ;;
         console_log "Successfully updated Slack message with chunked content"
       else
         m <- deref currentMessage ;;
         platform_call (chat_update (channel m) (ts m) content))
    (fun _ => console_error "Error updating chat response:").

(** ** The handler of inbound frames *)

(** [content?.includes('Connected to ANA Multi-Agent')]: [undefined] and
    [null] stop the chain, a string searches a substring, an array an
    element, and any other value has no such method. *)
Definition content_includes_marker (content : option json) : M bool :=
  match content with
  | None | Some JNull => ret false
  | Some (JString s) => ret (includes s CONNECTION_MARKER)
  | Some (JArray items) =>
      ret (existsb (fun x => match x with
                             | JString s => String.eqb s CONNECTION_MARKER
                             | _ => false
                             end) items)
  | Some _ => throw TypeError
  end.

(** The body of [ws.on('message', ...)] after [JSON.parse] succeeded, with
    [now] the reading of [Date.now()]. *)
Definition on_frame (jsonMessage : json) (now : Z) : M unit :=
  try_catch
    (content <- property jsonMessage "content" ;;
     marker <- content_includes_marker content ;;
     if marker then console_log "Received connection confirmation"
     else
       type <- property jsonMessage "type" ;;
       if strict_eq type "error" then
         cm <- gets (fun w => currentMessage (activeTurn w)) ;;
         handleErrorMessage jsonMessage cm
       else if strict_eq type "stream_complete" then
         console_log "Stream completed" ;;
         assign (set_isStreaming false) ;;
         buffer <- gets (fun w => messageContent (activeTurn w)) ;;
         if String.eqb buffer EmptyString then ret tt
         else
           updateSlackMessage buffer ;;
           assign (set_messageContent EmptyString) ;;
           assign (set_lastUpdateTime 0)
       else if strict_eq type "stream_chunk" && truthy content then
         assign (set_isStreaming true) ;;
         fragment <- coerce (match content with
                             | Some c => ToString c
                             | None => None
                             end) ;;
         assign (fun t => set_messageContent (messageContent t ++ fragment)%string t) ;;
         last <- gets (fun w => lastUpdateTime (activeTurn w)) ;;
         if (updateInterval <=? now - last)%Z then
           buffer <- gets (fun w => messageContent (activeTurn w)) ;;
           updateSlackMessage buffer ;;
           assign (set_lastUpdateTime now)
         else ret tt
       else if (strict_eq type "chat_response" || strict_eq type "stream")
               && truthy content then
         streaming <- gets (fun w => isStreaming (activeTurn w)) ;;
         if streaming then ret tt
         else
           cm <- gets (fun w => currentMessage (activeTurn w)) ;;
           handleChatResponse jsonMessage cm
       else ret tt)
    (fun _ => console_error "Error handling message:").

(** ** Connection management *)

Definition is_open (s : option readyState) : bool :=
  match s with
  | Some OPEN => true
  | _ => false
  end.

(** [ws && ws.readyState === WebSocket.OPEN] *)
Definition ws_ready (w : world) : bool :=
  match ws (connection w) with
  | Some id => is_open (nth_error (sockets w) id)
  | None => false
  end.

Fixpoint set_nth {A} (i : nat) (v : A) (l : list A) : list A :=
  match l, i with
  | [], _ => []
  | _ :: l', O => v :: l'
  | x :: l', S i' => x :: set_nth i' v l'
  end.

(** [establishConnection]: nothing to do on an open socket; otherwise a
    new socket with a fresh session identifier replaces [ws].  The
    returned promise settles with the [open] or [error] event. *)
Definition establishConnection : M unit :=
  ready <- gets ws_ready ;;
  if ready then ret tt
  else
    id <- gets (fun w => List.length (sockets w)) ;;
    modify (with_sockets (fun l => l ++ [CONNECTING])) ;;
    modify (with_connection (set_ws (Some id))) ;;
    emit (NewWebSocket id).

(** [ws.on('open', ...)] *)
Definition ws_on_open : M unit :=
  console_log "Connected to backend WebSocket" ;;
  modify (with_connection (set_reconnectAttempts 0)).

(** The callback handed to [setTimeout] by the [close] handler. *)
Definition reconnect : M unit :=
  modify (with_connection (fun c => set_reconnectAttempts (reconnectAttempts c + 1) c)) ;;
  n <- gets (fun w => reconnectAttempts (connection w)) ;;
  console_log ("Reconnecting... Attempt " ++ Number_toString n)%string ;;
  establishConnection.

(** [ws.on('close', ...)] *)
Definition ws_on_close : M unit :=
  console_log "Backend WebSocket connection closed" ;;
  modify (with_connection (set_ws None)) ;;
  n <- gets (fun w => reconnectAttempts (connection w)) ;;
  if (n <? MAX_RECONNECT_ATTEMPTS)%Z then
    emit (SetTimeout (RECONNECT_DELAY * n)) ;;
    modify (with_timers S)
  else ret tt.

(** The two [ws.on('error', ...)] handlers, in the order they were
    registered; the update of the first one is answered before the
    second one logs. *)
Definition ws_on_error : M unit :=
  console_error "WebSocket error:" ;;
  cm <- gets (fun w => currentMessage (activeTurn w)) ;;
  match cm with
  | Some m =>
      try_catch
        (platform_call (chat_update (channel m) (ts m) GENERIC_FAILURE))
        (fun _ => console_error "Error updating error message:")
  | None => ret tt
  end ;;
  console_error "WebSocket error:".

(** ** One user turn: [sendWebSocketMessage], cut at its [await]s *)

Inductive origin : Type := DirectMessage | Mention.

(** The [catch] of [sendWebSocketMessage], which rethrows. *)
Definition sendWebSocketMessage_catch (error : exn) : M unit :=
  console_error "Error in sendWebSocketMessage:" ;;
  cm <- gets (fun w => currentMessage (activeTurn w)) ;;
  match cm with
  | Some _ => handleErrorMessage (JObject [("error", JString (message error))]) cm
  | None => ret tt
  end ;;
  throw error.

(** The [catch] of the caller, [app.message] or [app.event('app_mention')]. *)
Definition caller_catch (o : origin) (body : M unit) : M unit :=
  try_catch body
    (fun _ =>
       match o with
       | DirectMessage =>
           console_error "Error in message handler:" ;;
           emit (Say "Sorry, there was an error processing your message.")
       | Mention =>
           console_error "Error in app_mention handler:" ;;
           emit (Say "Sorry, there was an error processing your mention.")
       end).

(** Lines 172--185: [say] resolved to [response]; the turn's variables
    are reset and the request is sent.  [sent] is the exception [ws.send]
    throws, if any. *)
Definition sendWebSocketMessage_posted
  (response : Message) (userMessage : string) (sent : option exn) : M unit :=
  try_catch
    (assign (set_currentMessage (Some response)) ;;
     assign (set_messageContent EmptyString) ;;
     assign (set_lastUpdateTime 0) ;;
     assign (set_isStreaming false) ;;
     console_log "Sending message payload:" ;;
     match sent with
     | None => emit (WsSend userMessage)
     | Some error => throw error
     end)
    sendWebSocketMessage_catch.

(** ** Events *)

Inductive event : Type :=
| WsOpen (id : nat)
| WsMessage (data : string) (now : Z)
| WsError (id : nat)
| WsClose (id : nat)
| ReconnectTimer
| TurnBegin
| TurnConnected
| TurnPosted (o : origin) (response : Message) (userMessage : string) (sent : option exn)
| TurnFailed (o : origin) (error : exn).

Section Relay.

(** [JSON.parse] of the runtime; [None] when it throws. *)
Variable JSON_parse : string -> option json.

(** The inner [try { jsonMessage = JSON.parse(message) } catch ...]. *)
Definition decode (data : string) : M (option json) :=
  match JSON_parse data with
  | Some jsonMessage => ret (Some jsonMessage)
  | None =>
      console_error "Failed to parse WebSocket message:" ;;
      ret None
  end.

(** [ws.on('message', ...)] *)
Definition ws_on_message (data : string) (now : Z) : M unit :=
  frame <- decode data ;;
  match frame with
  | Some jsonMessage => on_frame jsonMessage now
  | None => ret tt
  end.

(** The reaction of the program to one event.  The socket library
    moves the ready state before it emits [open] and [close]; an
    exception no handler catches reaches the process-level logger. *)
Definition handler (e : event) : M unit :=
  match e with
  | WsOpen id => modify (with_sockets (set_nth id OPEN)) ;; ws_on_open
  | WsMessage data now => ws_on_message data now
  | WsError _ => ws_on_error
  | WsClose id => modify (with_sockets (set_nth id CLOSED)) ;; ws_on_close
  | ReconnectTimer =>
      pending <- gets timers ;;
      match pending with
      | O => ret tt
      | S n => modify (with_timers (fun _ => n)) ;; reconnect
      end
  | TurnBegin => establishConnection
  | TurnConnected => emit (Say THINKING)
  | TurnPosted o response userMessage sent =>
      caller_catch o (sendWebSocketMessage_posted response userMessage sent)
  | TurnFailed o error => caller_catch o (sendWebSocketMessage_catch error)
  end.

Definition step (e : event) (w : world) : world :=
  match handler e w with
  | (Throw _, w') => with_history (cons (ConsoleError "Uncaught exception:")) w'
  | (_, w') => w'
  end.

Definition run (events : list event) (w : world) : world :=
  fold_left (fun acc e => step e acc) events w.

End Relay.

(** Frames in the shape of the protocol. *)
Definition stream_chunk (content : string) : json :=
  JObject [("type", JString "stream_chunk"); ("content", JString content)].
Definition stream_complete : json :=
  JObject [("type", JString "stream_complete")].
Definition chat_response (content : string) : json :=
  JObject [("type", JString "chat_response"); ("content", JString content)].
Definition error_frame (description : string) : json :=
  JObject [("type", JString "error"); ("error", JString description)].

(** Handling decoded frames one after the other, each with its clock
    reading: the handler of a frame runs to its end, the awaited update
    and its waits included, before the next frame is handled.  The
    listener is [async]: a frame that arrives while an update is awaited
    is handled in between, which this composition leaves out; statements
    about [on_frames] hold of runs in which every awaited call is
    answered before the next frame arrives. *)
Definition on_frames (frames : list (json * Z)) (w : world) : world :=
  fold_left (fun acc f => snd (on_frame (fst f) (snd f) acc)) frames w.

(** The platform calls of a history, oldest first. *)
Definition platform_calls (h : list effect) : list call :=
  rev (flat_map (fun e => match e with Platform c _ => [c] | _ => [] end) h).

(** The text the target message shows: that of the newest accepted
    [chat.update] on it, if any. *)
Fixpoint rendered (target : Message) (h : list effect) : option string :=
  match h with
  | [] => None
  | Platform (chat_update c t txt) Accepted :: h' =>
      if String.eqb c (channel target) && String.eqb t (ts target) then Some txt
      else rendered target h'
  | _ :: h' => rendered target h'
  end.

(** A state right after [sendWebSocketMessage] reset the turn on
    [target]. *)
Definition fresh_turn (target : Message) (script : list api_result) : world :=
  mkWorld (mkConnection (Some 0%nat) 0)
          (mkActiveTurn (Some target) EmptyString 0 false)
          [OPEN] 0 script [].

(** ** Vocabulary of the statements *)

(** An answer of the platform that is no failure other than a rate
    limit. *)
Definition benign (r : api_result) : bool :=
  match r with
  | Accepted => true
  | Rejected e => rate_limited e
  end.

(** c1 ‖ c2 ‖ ... ‖ cn *)
Definition concat_all (parts : list string) : string :=
  fold_right String.append EmptyString parts.

(** [stream_chunk] frames, each with the clock reading at its arrival. *)
Definition chunk_frames (chunks : list (string * Z)) : list (json * Z) :=
  map (fun c => (stream_chunk (fst c), snd c)) chunks.

(** What streaming keeps of a turn: its target, its buffer, and a
    platform that only ever signals rate limits. *)
Definition streaming_turn (target : Message) (buffer : string) (w : world) : Prop :=
  currentMessage (activeTurn w) = Some target
  /\ messageContent (activeTurn w) = buffer
  /\ forallb benign (platform w) = true.

Definition attempts (w : world) : Z := reconnectAttempts (connection w).

(** The delays handed to [setTimeout], oldest first. *)
Definition scheduled_delays (h : list effect) : list Z :=
  rev (flat_map (fun e => match e with SetTimeout ms => [ms] | _ => [] end) h).

(** Connections that fail one after the other: each socket closes
    without having opened, and the timer of the [close] handler fires. *)
Definition failed_rounds (ids : list nat) : list event :=
  flat_map (fun id => [WsClose id; ReconnectTimer]) ids.

(** The [content] member of a frame lets the marker check pass: it is
    absent, [null], a string without the connection marker, or an array
    that does not hold the marker. *)
Definition marker_free (members : list (string * json)) : bool :=
  match lookup "content" members with
  | None | Some JNull => true
  | Some (JString s) => negb (includes s CONNECTION_MARKER)
  | Some (JArray items) =>
      negb (existsb (fun x => match x with
                              | JString s => String.eqb s CONNECTION_MARKER
                              | _ => false
                              end) items)
  | Some _ => false
  end.

(** The handler [m] leaves the part [f] of the state as it found it. *)
Definition stable {X A} (f : world -> X) (m : M A) : Prop :=
  forall w, f (snd (m w)) = f w.

(** A computation that neither diverges nor leaves an exception behind. *)
Definition returns {A} (m : M A) : Prop :=
  forall w, exists a, fst (m w) = Return a.

(** A computation that does not diverge; it may throw. *)
Definition halts {A} (m : M A) : Prop :=
  forall w, fst (m w) <> Diverge.

(** A line or a chunk of at most [MAX_LENGTH] characters. *)
Definition within_limit (s : string) : Prop := (String.length s <= MAX_LENGTH)%nat.

(** Two chunks and the completion of a stream, with the clock reading
    [T] when the first chunk arrives. *)
Definition hello_trace (T : Z) : list (json * Z) :=
  [(stream_chunk "Hello ", T); (stream_chunk " world", (T + 100)%Z);
   (stream_complete, (T + 600)%Z)].

(** Sample data for the concrete runs. *)
Fixpoint repeat_char (n : nat) (c : ascii) : string :=
  match n with
  | O => EmptyString
  | S n' => String c (repeat_char n' c)
  end.

(** An answer of 3002 characters whose first line has exactly
    [MAX_LENGTH] characters. *)
Definition full_first_line : string :=
  (repeat_char 3000 "a" ++ LF ++ "b")%string.

(** An answer of 3003 characters with a blank line right after 3000
    characters of text. *)
Definition blank_line_at_boundary : string :=
  (repeat_char 1499 "a" ++ LF ++ repeat_char 1500 "a" ++ LF ++ LF ++ "b")%string.

(** An answer of 4001 characters in two lines. *)
Definition two_chunk_answer : string :=
  (repeat_char 2000 "a" ++ LF ++ repeat_char 2000 "b")%string.

Definition sample_target : Message := mkMessage "C024BE91L" "1503435956.000247" None.

Definition rate_limit_signal (seconds : option Z) : exn :=
  {| code := Some "rate_limited"; retryAfter := seconds;
     message := "A rate limit was exceeded" |}.

(** A decoder for the three JSON keywords, enough to run the handler on
    text that no JSON decoder accepts. *)
Definition keyword_parse (data : string) : option json :=
  if String.eqb data "null" then Some JNull
  else if String.eqb data "true" then Some (JBool true)
  else if String.eqb data "false" then Some (JBool false)
  else None.

(** ** The handlers of user events *)

(** [c.toLowerCase()] on a code unit below 256: the letters A-Z and the
    capital letters of Latin-1 (all of 192..222 but the multiplication
    sign) move up by 32. *)
Definition toLowerCase_char (c : ascii) : ascii :=
  let n := nat_of_ascii c in
  if ((65 <=? n)%nat && (n <=? 90)%nat)
     || ((192 <=? n)%nat && (n <=? 222)%nat && negb (n =? 215)%nat)
  then ascii_of_nat (n + 32)
  else c.

Fixpoint toLowerCase (s : string) : string :=
  match s with
  | EmptyString => EmptyString
  | String c s' => String (toLowerCase_char c) (toLowerCase s')
  end.

(** The class [[A-Z0-9]] of the mention pattern. *)
Definition isMentionChar (c : ascii) : bool :=
  let n := nat_of_ascii c in
  ((65 <=? n)%nat && (n <=? 90)%nat) || ((48 <=? n)%nat && (n <=? 57)%nat).

(** What is left of [s] after its longest prefix in [[A-Z0-9]]. *)
Fixpoint skip_mention_chars (s : string) : string :=
  match s with
  | EmptyString => EmptyString
  | String c s' => if isMentionChar c then skip_mention_chars s' else s
  end.

(** A match of [/<@[A-Z0-9]+>/] at the start of [s]: what follows it.
    The greedy run is the only candidate, since no character of the class
    is the closing bracket. *)
Definition match_mention (s : string) : option string :=
  match s with
  | String "<" (String "@" (String c s')) =>
      if isMentionChar c then
        match skip_mention_chars s' with
        | String ">" rest => Some rest
        | _ => None
        end
      else None
  | _ => None
  end.

(** [text.replace(/<@[A-Z0-9]+>/, '')]: the leftmost match is removed,
    and only that one. *)
Fixpoint replace_mention (s : string) : string :=
  match match_mention s with
  | Some rest => rest
  | None =>
      match s with
      | EmptyString => EmptyString
      | String c s' => String c (replace_mention s')
      end
  end.

(** The fields the handlers read of a Slack message or mention event. *)
Module SlackEvent.
Record t : Type := make {
  subtype : option string;
  text : option string;
  user : option string
}.
End SlackEvent.

(** A possibly [undefined] string inside a template literal. *)
Definition interpolate (v : option string) : string :=
  match v with
  | Some s => s
  | None => "undefined"
  end.

Definition GREETING (user : option string) : string :=
  ("Hey there <@" ++ interpolate user ++ ">! ðŸ‘‹" ++ LF
   ++ "I'm your DevOps assistant. How can I help you today?")%string.

Definition MENTION_PROMPT (user : option string) : string :=
  ("Hi <@" ++ interpolate user ++ ">! How can I help you?")%string.

(** [sendWebSocketMessage(userMessage, say)] up to its first [await]:
    the connection is asked for.  The value is the user message that the
    suspended call holds, and that the event [TurnPosted] sends. *)
Definition sendWebSocketMessage_begin (userMessage : string) : M (option string) :=
  establishConnection ;;
  ret (Some userMessage).

(** [app.message(...)] up to its first [await].  [say] is recorded by its
    text; [None] is returned when nothing is handed to the relay. *)
Definition app_message (message : SlackEvent.t) : M (option string) :=
  try_catch
    (if strict_eq (option_map JString (SlackEvent.subtype message)) "bot_message"
     then ret None
     else
       match SlackEvent.text message with
       | None | Some EmptyString =>
           console_log "Received message without text:" ;;
           ret None
       | Some text =>
           console_log "Received message:" ;;
           if String.eqb (toLowerCase text) "hello" then
             emit (Say (GREETING (SlackEvent.user message))) ;;
             ret None
           else sendWebSocketMessage_begin text
       end)
    (fun _ =>
       console_error "Error in message handler:" ;;
       emit (Say "Sorry, there was an error processing your message.") ;;
       ret None).

(** [app.event('app_mention', ...)] up to its first [await].  The
    [thread_ts] of the prompt is left out of [Say], as [blocks] is. *)
Definition app_mention (event : SlackEvent.t) : M (option string) :=
  try_catch
    (console_log "Received mention:" ;;
     text <- coerce (SlackEvent.text event) ;;
     let message := trim (replace_mention text) in
     if String.eqb message EmptyString then
       emit (Say (MENTION_PROMPT (SlackEvent.user event))) ;;
       ret None
     else sendWebSocketMessage_begin message)
    (fun _ =>
       console_error "Error in app_mention handler:" ;;
       emit (Say "Sorry, there was an error processing your mention.") ;;
       ret None).

(** ** Vocabulary of the further statements *)

(** Every platform call of the history is an update whose text is a
    prefix of [buffer]. *)
Definition shows_prefix_of (buffer : string) (h : list effect) : Prop :=
  Forall (fun c => match c with
                   | chat_update _ _ shown => String.prefix shown buffer = true
                   | chat_postMessage _ _ _ => False
                   end) (platform_calls h).

(** The clock readings of successive frames do not go back. *)
Fixpoint nondecreasing (t : Z) (later : list Z) : Prop :=
  match later with
  | [] => True
  | t' :: rest => (t <= t')%Z /\ nondecreasing t' rest
  end.

(** The last of the readings [t :: later]. *)
Fixpoint last_reading (t : Z) (later : list Z) : Z :=
  match later with
  | [] => t
  | t' :: rest => last_reading t' rest
  end.

(** [ws] is [null] or refers to a socket that was created. *)
Definition ws_refers_to_socket (w : world) : Prop :=
  match ws (connection w) with
  | Some id => (id < List.length (sockets w))%nat
  | None => True
  end.

(** The calls that render [chunks]: the first as an update of the
    target, the others as posts in its thread. *)
Definition chunk_calls (target : Message) (chunks : list string) : list call :=
  match chunks with
  | [] => []
  | first :: others =>
      chat_update (channel target) (ts target) first
      :: map (chat_postMessage (channel target) (ts target)) others
  end.

(** The number of platform calls issued so far. *)
Definition call_count (w : world) : Z :=
  Z.of_nat (List.length (platform_calls (history w))).

(** What the calling handler says when a turn fails. *)
Definition apology (o : origin) : string :=
  match o with
  | DirectMessage => "Sorry, there was an error processing your message."
  | Mention => "Sorry, there was an error processing your mention."
  end.

(** Every character of [s] is a capital letter or a digit. *)
Fixpoint all_mention_chars (s : string) : bool :=
  match s with
  | EmptyString => true
  | String c s' => isMentionChar c && all_mention_chars s'
  end.

(** Nothing happened between [w] and [w'] but, at most, the logging of
    [line]. *)
Definition event_log_only (line : string) (w w' : world) : Prop :=
  w' = w \/ w' = with_history (cons (ConsoleLog line)) w.

(** The requests sent to the backend, oldest first. *)
Definition sent_requests (h : list effect) : list string :=
  rev (flat_map (fun e => match e with WsSend content => [content] | _ => [] end) h).

(** ** Vocabulary of the reconnection and display statements *)

(** An event that is neither an open, nor a close, nor the firing of a
    reconnect timer: a message, a socket error, or a step of a user
    turn. *)
Definition bystander (e : event) : bool :=
  match e with
  | WsOpen _ | WsClose _ | ReconnectTimer => false
  | _ => true
  end.

(** One connection that fails, among other events: the events [before],
    the close of socket [id], the events [between], and the firing of the
    reconnect timer. *)
Definition failed_round (r : list event * nat * list event) : list event :=
  let '(before, id, between) := r in
  before ++ WsClose id :: between ++ [ReconnectTimer].

Definition among_bystanders (r : list event * nat * list event) : bool :=
  let '(before, _, between) := r in
  forallb bystander before && forallb bystander between.

Definition failed_rounds_among (rounds : list (list event * nat * list event))
  : list event :=
  flat_map failed_round rounds.

(** The handler [m] hands nothing to [setTimeout]. *)
Definition quiet {A} (m : M A) : Prop :=
  forall w, scheduled_delays (history (snd (m w))) = scheduled_delays (history w).

(** The computation [m] leaves no exception behind. *)
Definition catches_all {A} (m : M A) : Prop :=
  forall w error, fst (m w) <> Throw error.

Definition call_text (c : call) : string :=
  match c with
  | chat_update _ _ shown => shown
  | chat_postMessage _ _ shown => shown
  end.

(** In a list of calls, oldest first, the text of every call is a prefix
    of the text of every later call. *)
Fixpoint never_rewound (calls : list call) : Prop :=
  match calls with
  | [] => True
  | c :: later =>
      Forall (fun c' => String.prefix (call_text c) (call_text c') = true) later
      /\ never_rewound later
  end.

(** Five connections that fail one after the other while messages
    arrive, a socket reports an error and turns begin. *)
Definition busy_rounds : list (list event * nat * list event) :=
  [([], 0, []);
   ([WsMessage "null" 1000; TurnBegin], 1, [WsError 2]);
   ([], 2, [WsMessage "{" 2000]);
   ([TurnBegin; TurnConnected], 3, []);
   ([WsError 4], 4, [WsMessage "true" 3000])]%nat.

(** How many opens and how many closes a list of events holds. *)
Definition opens (events : list event) : nat :=
  List.length (filter (fun e => match e with WsOpen _ => true | _ => false end) events).

Definition closes (events : list event) : nat :=
  List.length (filter (fun e => match e with WsClose _ => true | _ => false end) events).

(** After an open and four connections that fail in a row, a turn
    begins while the socket of the fourth reconnect is still connecting;
    the two sockets then close one after the other, and the two timers
    fire. *)
Definition overlapping_closes : list event :=
  WsOpen 0 :: failed_rounds [0; 1; 2; 3]%nat
  ++ [TurnBegin; WsClose 4; WsClose 5; ReconnectTimer; ReconnectTimer].

(** * Properties *)

(** ** Strings *)

Lemma append_nil_r s : (s ++ "")%string = s.
Proof. induction s as [| c s IH]; simpl; [reflexivity | now rewrite IH]. Qed.

Lemma append_assoc s t u : ((s ++ t) ++ u)%string = (s ++ (t ++ u))%string.
Proof. induction s as [| c s IH]; simpl; [reflexivity | now rewrite IH]. Qed.

Lemma length_append s t :
  String.length (s ++ t) = (String.length s + String.length t)%nat.
Proof. induction s as [| c s IH]; simpl; [reflexivity | now rewrite IH]. Qed.

Lemma prefix_refl s : String.prefix s s = true.
Proof.
  induction s as [| c s IH]; simpl; [reflexivity |].
  destruct (ascii_dec c c) as [_ | Hc]; [assumption | now elim Hc].
Qed.

Lemma includes_self s : includes s s = true.
Proof.
  destruct s as [| c s]; [reflexivity |].
  cbn [includes]. rewrite prefix_refl. reflexivity.
Qed.

Lemma includes_append_l p s search :
  includes s search = true -> includes (p ++ s) search = true.
Proof.
  intros H. induction p as [| c p IH]; [assumption |].
  cbn [String.append includes]. rewrite IH. apply orb_true_r.
Qed.

(** ** Handlers that leave a part of the state alone *)

Create HintDb stable.

Section Stable.

Context {X : Type} (f : world -> X).
Hypothesis f_history : forall g w, f (with_history g w) = f w.
Hypothesis f_platform : forall g w, f (with_platform g w) = f w.
Hypothesis f_activeTurn : forall g w, f (with_activeTurn g w) = f w.

Lemma stable_ret {A} (a : A) : stable f (ret a).
Proof. intros w. reflexivity. Qed.

Lemma stable_throw {A} (e : exn) : stable f (@throw A e).
Proof. intros w. reflexivity. Qed.

Lemma stable_diverge {A} : stable f (@diverge A).
Proof. intros w. reflexivity. Qed.

Lemma stable_gets {A} (g : world -> A) : stable f (gets g).
Proof. intros w. reflexivity. Qed.

Lemma stable_bind {A B} (m : M A) (k : A -> M B) :
  stable f m -> (forall a, stable f (k a)) -> stable f (bind m k).
Proof.
  intros Hm Hk w. unfold bind. specialize (Hm w).
  destruct (m w) as [[a | e |] w1]; simpl in *; try assumption.
  rewrite Hk. assumption.
Qed.

Lemma stable_try_catch {A} (body : M A) (handler : exn -> M A) :
  stable f body -> (forall e, stable f (handler e)) -> stable f (try_catch body handler).
Proof.
  intros Hb Hh w. unfold try_catch. specialize (Hb w).
  destruct (body w) as [[a | e |] w1]; simpl in *; try assumption.
  rewrite Hh. assumption.
Qed.

Lemma stable_modify (g : world -> world) :
  (forall w, f (g w) = f w) -> stable f (modify g).
Proof. intros Hg w. apply Hg. Qed.

Lemma stable_emit (e : effect) : stable f (emit e).
Proof. apply stable_modify. intros w. apply f_history. Qed.

Lemma stable_console_log (line : string) : stable f (console_log line).
Proof. apply stable_emit. Qed.

Lemma stable_console_error (line : string) : stable f (console_error line).
Proof. apply stable_emit. Qed.

Lemma stable_assign (g : ActiveTurn -> ActiveTurn) : stable f (assign g).
Proof. apply stable_modify. intros w. apply f_activeTurn. Qed.

Lemma stable_platform_call (c : call) : stable f (platform_call c).
Proof.
  intros w. unfold platform_call.
  destruct (platform w) as [| [| e] rest]; simpl;
    rewrite ?f_history, ?f_platform; reflexivity.
Qed.

Lemma stable_deref (m : option Message) : stable f (deref m).
Proof. destruct m; [apply stable_ret | apply stable_throw]. Qed.

Lemma stable_coerce (s : option string) : stable f (coerce s).
Proof. destruct s; [apply stable_ret | apply stable_throw]. Qed.

Lemma stable_property (obj : json) (key : string) : stable f (property obj key).
Proof. destruct obj; first [apply stable_ret | apply stable_throw]. Qed.

#[local] Hint Resolve stable_ret stable_throw stable_diverge stable_gets stable_emit
  stable_console_log stable_console_error stable_assign stable_platform_call
  stable_deref stable_coerce stable_property : stable.

(** One layer of a handler: a sequence, a [try], or a case analysis. *)
Ltac stable_step :=
  match goal with
  | |- stable _ (bind _ _) => apply stable_bind; [| intros ?]
  | |- stable _ (try_catch _ _) => apply stable_try_catch; [| intros ?]
  | |- stable _ _ => solve [auto with stable]
  | |- stable _ (if ?b then _ else _) => destruct b
  | |- stable _ (match ?x with _ => _ end) => destruct x
  end.

Lemma stable_handleErrorMessage jsonMessage cm :
  stable f (handleErrorMessage jsonMessage cm).
Proof. unfold handleErrorMessage. repeat stable_step. Qed.

Lemma stable_updateSlackMessage_rec fuel content :
  stable f (updateSlackMessage_rec fuel content).
Proof.
  induction fuel as [| fuel IH]; simpl; [apply stable_diverge |].
  repeat stable_step.
Qed.

Lemma stable_updateSlackMessage content : stable f (updateSlackMessage content).
Proof. intros w. apply stable_updateSlackMessage_rec. Qed.

Lemma stable_post_chunks m chunks : forall i, stable f (post_chunks m i chunks).
Proof.
  induction chunks as [| c rest IH]; intros i; simpl; [apply stable_ret |].
  repeat stable_step.
Qed.

Lemma stable_content_trim content : stable f (content_trim content).
Proof. unfold content_trim. repeat stable_step. Qed.

Lemma stable_content_includes_marker content :
  stable f (content_includes_marker content).
Proof. unfold content_includes_marker. repeat stable_step. Qed.

#[local] Hint Resolve stable_handleErrorMessage stable_updateSlackMessage
  stable_post_chunks stable_content_trim stable_content_includes_marker : stable.

Lemma stable_handleChatResponse jsonMessage cm :
  stable f (handleChatResponse jsonMessage cm).
Proof. unfold handleChatResponse. repeat stable_step. Qed.

#[local] Hint Resolve stable_handleChatResponse : stable.

Lemma stable_on_frame jsonMessage now : stable f (on_frame jsonMessage now).
Proof. unfold on_frame. repeat stable_step. Qed.

Lemma stable_ws_on_error : stable f ws_on_error.
Proof. unfold ws_on_error. repeat stable_step. Qed.

Lemma stable_sendWebSocketMessage_catch error :
  stable f (sendWebSocketMessage_catch error).
Proof. unfold sendWebSocketMessage_catch. repeat stable_step. Qed.

#[local] Hint Resolve stable_sendWebSocketMessage_catch : stable.

Lemma stable_sendWebSocketMessage_posted response userMessage sent :
  stable f (sendWebSocketMessage_posted response userMessage sent).
Proof. unfold sendWebSocketMessage_posted. repeat stable_step. Qed.

Lemma stable_caller_catch o body : stable f body -> stable f (caller_catch o body).
Proof. intros Hb. unfold caller_catch. repeat stable_step. Qed.

Lemma stable_ws_on_message JSON_parse data now :
  stable f (ws_on_message JSON_parse data now).
Proof.
  unfold ws_on_message, decode.
  pose proof stable_on_frame.
  destruct (JSON_parse data); repeat stable_step.
Qed.

End Stable.

(** ** The retry loop of [updateSlackMessage] *)

(** The recursion ends: with more fuel than the script is long the call
    returns, whatever the platform answers. *)
Lemma updateSlackMessage_rec_total fuel : forall content w,
  (List.length (platform w) < fuel)%nat ->
  fst (updateSlackMessage_rec fuel content w) = Return tt.
Proof.
  induction fuel as [| fuel IH]; intros content w Hfuel; [lia |].
  simpl. unfold bind, gets, try_catch, platform_call.
  destruct (currentMessage (activeTurn w)) as [m |]; [| reflexivity].
  destruct (String.eqb content EmptyString); [reflexivity |].
  destruct (platform w) as [| [| e] rest] eqn:Hp; simpl; try reflexivity.
  destruct (rate_limited e); simpl; [| reflexivity].
  apply IH. simpl. simpl in Hfuel. lia.
Qed.

Lemma updateSlackMessage_total content w :
  fst (updateSlackMessage content w) = Return tt.
Proof. apply updateSlackMessage_rec_total. lia. Qed.

(** On a platform that only signals rate limits, the loop goes on until
    the update is accepted. *)
Lemma updateSlackMessage_rec_renders fuel : forall content target w,
  currentMessage (activeTurn w) = Some target ->
  content <> EmptyString ->
  (List.length (platform w) < fuel)%nat ->
  forallb benign (platform w) = true ->
  let w' := snd (updateSlackMessage_rec fuel content w) in
  activeTurn w' = activeTurn w
  /\ forallb benign (platform w') = true
  /\ rendered target (history w') = Some content.
Proof.
  induction fuel as [| fuel IH]; intros content target w Hcm Hne Hfuel Hb; [lia |].
  simpl. unfold bind, gets, try_catch, platform_call. rewrite Hcm.
  apply String.eqb_neq in Hne. rewrite Hne.
  destruct (platform w) as [| [| e] rest] eqn:Hp; simpl.
  - rewrite !String.eqb_refl. simpl. rewrite Hp. repeat split; reflexivity.
  - rewrite !String.eqb_refl. simpl in *. repeat split; try reflexivity. assumption.
  - simpl in Hb. apply andb_prop in Hb. destruct Hb as [He Hrest]. rewrite He. simpl.
    match goal with
    | |- context [updateSlackMessage_rec fuel content ?w1] =>
        destruct (IH content target w1) as (Hturn & Hb' & Hr); simpl; try assumption
    end.
    + apply String.eqb_neq. assumption.
    + simpl in Hfuel. lia.
    + rewrite Hturn. repeat split; assumption.
Qed.

Lemma updateSlackMessage_renders content target w :
  currentMessage (activeTurn w) = Some target ->
  content <> EmptyString ->
  forallb benign (platform w) = true ->
  let w' := snd (updateSlackMessage content w) in
  activeTurn w' = activeTurn w
  /\ forallb benign (platform w') = true
  /\ rendered target (history w') = Some content.
Proof.
  intros Hcm Hne Hb. unfold updateSlackMessage.
  apply updateSlackMessage_rec_renders; auto.
Qed.

(** ** Streaming *)

Lemma on_frame_stream_chunk target buffer c now w :
  includes c CONNECTION_MARKER = false ->
  streaming_turn target buffer w ->
  streaming_turn target (buffer ++ c)%string (snd (on_frame (stream_chunk c) now w)).
Proof.
  intros Hm (Hcm & Hbuf & Hb).
  unfold on_frame, stream_chunk, try_catch, bind, property, ret, gets. simpl.
  rewrite Hm. simpl.
  destruct (String.eqb_spec c EmptyString) as [-> | Hc]; simpl.
  - rewrite append_nil_r. repeat split; assumption.
  - destruct (updateInterval <=? now - lastUpdateTime (activeTurn w))%Z; simpl.
    + pose (w1 := with_activeTurn
                 (fun t => set_messageContent (messageContent t ++ c)%string t)
                 (with_activeTurn (set_isStreaming true) w)).
      destruct (updateSlackMessage_renders (messageContent (activeTurn w) ++ c)%string
                  target w1) as (Hturn & Hb' & _); try assumption.
      { destruct (messageContent (activeTurn w)); simpl; [assumption | discriminate]. }
      fold w1.
      pose proof (updateSlackMessage_total (messageContent (activeTurn w) ++ c)%string w1)
        as Htot.
      destruct (updateSlackMessage (messageContent (activeTurn w) ++ c)%string w1)
        as [o w2]. simpl in *. subst o. simpl.
      unfold streaming_turn. simpl. rewrite Hturn. simpl. rewrite Hbuf.
      repeat split; assumption.
    + unfold streaming_turn. simpl. rewrite Hbuf. repeat split; assumption.
Qed.

Lemma on_frame_stream_complete target buffer now w :
  buffer <> EmptyString ->
  streaming_turn target buffer w ->
  let w' := snd (on_frame stream_complete now w) in
  rendered target (history w') = Some buffer
  /\ messageContent (activeTurn w') = EmptyString
  /\ isStreaming (activeTurn w') = false.
Proof.
  intros Hne (Hcm & Hbuf & Hb).
  unfold on_frame, stream_complete, try_catch, bind, property, ret, gets. simpl.
  rewrite Hbuf. apply String.eqb_neq in Hne. rewrite Hne.
  match goal with
  | |- context [updateSlackMessage buffer ?w1] =>
      destruct (updateSlackMessage_renders buffer target w1) as (Hturn & _ & Hr);
      try assumption; [now apply String.eqb_neq |];
      pose proof (updateSlackMessage_total buffer w1) as Htot;
      destruct (updateSlackMessage buffer w1) as [o w2]
  end.
  simpl in *. subst o. simpl. rewrite Hturn. simpl.
  repeat split; try assumption; reflexivity.
Qed.

Lemma on_frames_app fs gs w : on_frames (fs ++ gs) w = on_frames gs (on_frames fs w).
Proof. unfold on_frames. apply fold_left_app. Qed.

Lemma on_frames_chunks target chunks : forall buffer w,
  Forall (fun c => includes (fst c) CONNECTION_MARKER = false) chunks ->
  streaming_turn target buffer w ->
  streaming_turn target (buffer ++ concat_all (map fst chunks))%string
    (on_frames (chunk_frames chunks) w).
Proof.
  induction chunks as [| [c now] chunks IH]; intros buffer w Hall Hinv; simpl.
  - rewrite append_nil_r. assumption.
  - inversion Hall as [| ? ? Hc Hrest]; subst. simpl in Hc.
    rewrite <- append_assoc. apply IH; [assumption |].
    apply on_frame_stream_chunk; assumption.
Qed.

(** A frame whose content carries the connection marker is logged and
    dropped before its type is looked at. *)
Lemma on_frame_marker members s now w :
  lookup "content" members = Some (JString s) ->
  includes s CONNECTION_MARKER = true ->
  on_frame (JObject members) now w
  = (Return tt, with_history (cons (ConsoleLog "Received connection confirmation")) w).
Proof.
  intros Hc Hm. unfold on_frame, try_catch, bind, property, ret.
  rewrite Hc. simpl. rewrite Hm. reflexivity.
Qed.




(** ** Frames that are dropped *)

(** C7: a text that [JSON.parse] rejects is logged and dropped.  The
    decode step returns no frame; the handler returns normally, leaves
    the turn (target, buffer, streaming flag, last-flush time), the
    connection and the platform as they were, and issues no platform
    call. *)
Theorem malformed_input_is_discarded JSON_parse data now w :
  JSON_parse data = None ->
  let logged := with_history (cons (ConsoleError "Failed to parse WebSocket message:")) w in
  decode JSON_parse data w = (Return None, logged)
  /\ ws_on_message JSON_parse data now w = (Return tt, logged)
  /\ activeTurn logged = activeTurn w
  /\ connection logged = connection w
  /\ platform logged = platform w
  /\ platform_calls (history logged) = platform_calls (history w).
Proof.
  intros Hparse. unfold ws_on_message, decode, bind. rewrite Hparse.
  repeat split; reflexivity.
Qed.

Lemma malformed_input_is_discarded_witness :
  let w := fresh_turn sample_target [] in
  let logged := with_history (cons (ConsoleError "Failed to parse WebSocket message:")) w in
  keyword_parse "{type: stream_chunk" = None
  /\ ws_on_message keyword_parse "{type: stream_chunk" 1000%Z w = (Return tt, logged).
Proof.
  split; [reflexivity |].
  apply (malformed_input_is_discarded keyword_parse "{type: stream_chunk" 1000%Z
           (fresh_turn sample_target [])).
  reflexivity.
Defined.

(** C9: while the streaming flag is set, a [chat_response] or [stream]
    frame changes nothing of the turn, of the connection or of the
    platform script, and no platform call is issued for it. *)
Theorem complete_message_ignored_while_streaming members now w :
  lookup "type" members = Some (JString "chat_response")
  \/ lookup "type" members = Some (JString "stream") ->
  isStreaming (activeTurn w) = true ->
  let r := on_frame (JObject members) now w in
  fst r = Return tt
  /\ activeTurn (snd r) = activeTurn w
  /\ connection (snd r) = connection w
  /\ platform (snd r) = platform w
  /\ platform_calls (history (snd r)) = platform_calls (history w).
Proof.
  intros Ht Hs. unfold on_frame, try_catch, bind, property, ret, gets.
  destruct Ht as [Ht | Ht]; rewrite Ht;
    destruct (lookup "content" members) as [[| b | n | s | items | ms] |]; simpl;
    rewrite ?Hs;
    repeat match goal with
      | |- context [if ?b then _ else _] => rewrite ?Hs; destruct b; simpl
      end;
    try discriminate; repeat split; reflexivity.
Qed.

Lemma complete_message_ignored_while_streaming_witness :
  let w := snd (on_frame (stream_chunk "partial") 1000%Z (fresh_turn sample_target [])) in
  let r := on_frame (chat_response "the whole answer") 1100%Z w in
  isStreaming (activeTurn w) = true
  /\ fst r = Return tt
  /\ activeTurn (snd r) = activeTurn w
  /\ connection (snd r) = connection w
  /\ platform (snd r) = platform w
  /\ platform_calls (history (snd r)) = platform_calls (history w).
Proof.
  split; [reflexivity |].
  apply (complete_message_ignored_while_streaming
           [("type", JString "chat_response"); ("content", JString "the whole answer")]
           1100%Z
           (snd (on_frame (stream_chunk "partial") 1000%Z (fresh_turn sample_target [])))).
  - left. reflexivity.
  - reflexivity.
Defined.

(** C10: a frame whose [content] is a string containing the connection
    marker is logged and dropped whatever its [type] says: the buffer and
    the rest of the turn stay as they were, no platform call is issued,
    and every message shows what it showed before. *)
Theorem marker_frame_is_discarded members s now w :
  lookup "content" members = Some (JString s) ->
  includes s CONNECTION_MARKER = true ->
  let r := on_frame (JObject members) now w in
  fst r = Return tt
  /\ history (snd r) = ConsoleLog "Received connection confirmation" :: history w
  /\ activeTurn (snd r) = activeTurn w
  /\ platform_calls (history (snd r)) = platform_calls (history w)
  /\ forall target, rendered target (history (snd r)) = rendered target (history w).
Proof.
  intros Hc Hm. simpl. rewrite (on_frame_marker members s now w Hc Hm).
  repeat split; reflexivity.
Qed.

Lemma marker_frame_is_discarded_witness :
  let s := "Connected to ANA Multi-Agent System" in
  let w := snd (on_frame (stream_chunk "partial") 1000%Z (fresh_turn sample_target [])) in
  let r := on_frame (stream_chunk s) 2000%Z w in
  includes s CONNECTION_MARKER = true
  /\ fst r = Return tt
  /\ history (snd r) = ConsoleLog "Received connection confirmation" :: history w
  /\ activeTurn (snd r) = activeTurn w
  /\ platform_calls (history (snd r)) = platform_calls (history w)
  /\ forall target, rendered target (history (snd r)) = rendered target (history w).
Proof.
  split; [reflexivity |].
  apply (marker_frame_is_discarded
           [("type", JString "stream_chunk");
            ("content", JString "Connected to ANA Multi-Agent System")]
           "Connected to ANA Multi-Agent System" 2000%Z
           (snd (on_frame (stream_chunk "partial") 1000%Z (fresh_turn sample_target [])))).
  - reflexivity.
  - reflexivity.
Defined.

(** ** Error frames *)

Lemma platform_calls_cons_call c r h :
  platform_calls (Platform c r :: h) = platform_calls h ++ [c].
Proof. reflexivity. Qed.

(** What [handleErrorMessage] does with a string description on an
    active turn. *)
Lemma handleErrorMessage_overwrites members description target w :
  lookup "error" members = Some (JString description) ->
  let shown := (ERROR_PREFIX ++ description)%string in
  let r := handleErrorMessage (JObject members) (Some target) w in
  fst r = Return tt
  /\ platform_calls (history (snd r))
     = platform_calls (history w) ++ [chat_update (channel target) (ts target) shown]
  /\ (hd Accepted (platform w) = Accepted ->
      rendered target (history (snd r)) = Some shown).
Proof.
  intros He shown.
  cbv [handleErrorMessage try_catch bind property ret platform_call deref coerce].
  rewrite He. cbv [ToString_opt ToString]. fold shown.
  destruct (platform w) as [| [| e] rest]; cbn [fst snd hd].
  - split; [reflexivity |]. split; [reflexivity |].
    intros _. cbn [history with_history rendered].
    rewrite !String.eqb_refl. reflexivity.
  - split; [reflexivity |]. split; [reflexivity |].
    intros _. cbn [history with_history with_platform rendered].
    rewrite !String.eqb_refl. reflexivity.
  - split; [reflexivity |]. split; [reflexivity |]. discriminate.
Qed.

(** C8, as stated, fails: an [error] frame that also has a [content]
    member carrying the connection marker is dropped by the marker check,
    which comes first; the target message is not touched. *)
Lemma error_frame_with_marker_is_dropped :
  let frame := JObject [("type", JString "error");
                        ("error", JString "backend down");
                        ("content", JString "Connected to ANA Multi-Agent")] in
  let w' := snd (on_frame frame 1000%Z (fresh_turn sample_target [])) in
  platform_calls (history w') = []
  /\ rendered sample_target (history w') = None.
Proof. split; reflexivity. Qed.

(** C8 (amended): an [error] frame with a string description, whose
    [content] member is absent, [null], a string without the connection
    marker or an array that does not hold it, arrives while a turn is
    active: the handler issues one [chat.update] on the target message,
    with the text [ERROR_PREFIX] followed by the description, which
    therefore contains the description verbatim; the target message
    shows that text whenever the platform accepts the call. *)
Theorem error_frame_overwrites_target members description target now w :
  lookup "type" members = Some (JString "error") ->
  lookup "error" members = Some (JString description) ->
  marker_free members = true ->
  currentMessage (activeTurn w) = Some target ->
  let shown := (ERROR_PREFIX ++ description)%string in
  let r := on_frame (JObject members) now w in
  fst r = Return tt
  /\ platform_calls (history (snd r))
     = platform_calls (history w) ++ [chat_update (channel target) (ts target) shown]
  /\ includes shown description = true
  /\ (hd Accepted (platform w) = Accepted ->
      rendered target (history (snd r)) = Some shown).
Proof.
  intros Ht He Hfree Hcm shown r.
  destruct (handleErrorMessage_overwrites members description target w He)
    as (Hret & Hcalls & Hshown).
  assert (Hr : r = handleErrorMessage (JObject members) (Some target) w).
  { subst r. unfold on_frame, try_catch, bind, property, ret, gets.
    unfold marker_free in Hfree.
    destruct (lookup "content" members) as [[| b | n | s | items | ms] |];
      try discriminate; simpl;
      try (apply negb_true_iff in Hfree; rewrite Hfree);
      rewrite Ht; simpl; rewrite Hcm;
      destruct (handleErrorMessage (JObject members) (Some target) w) as [o w1];
      simpl in Hret; subst o; reflexivity. }
  rewrite Hr. repeat split; try assumption.
  apply includes_append_l, includes_self.
Qed.

Lemma error_frame_overwrites_target_witness :
  let shown := (ERROR_PREFIX ++ "backend down")%string in
  let w := fresh_turn sample_target [] in
  let r := on_frame (error_frame "backend down") 1000%Z w in
  fst r = Return tt
  /\ platform_calls (history (snd r))
     = [chat_update (channel sample_target) (ts sample_target) shown]
  /\ includes shown "backend down" = true
  /\ (hd Accepted (platform w) = Accepted ->
      rendered sample_target (history (snd r)) = Some shown).
Proof.
  apply (error_frame_overwrites_target
           [("type", JString "error"); ("error", JString "backend down")]
           "backend down" sample_target 1000%Z (fresh_turn sample_target [])).
  - reflexivity.
  - reflexivity.
  - reflexivity.
  - reflexivity.
Defined.

(** ** Reconnection *)

(** What [establishConnection] does, by the state of [ws]. *)
Lemma establishConnection_eq w :
  establishConnection w
  = if ws_ready w then (Return tt, w)
    else (Return tt,
          with_history (cons (NewWebSocket (List.length (sockets w))))
            (with_connection (set_ws (Some (List.length (sockets w))))
               (with_sockets (fun l => l ++ [CONNECTING]) w))).
Proof.
  unfold establishConnection, bind, gets, modify, emit, ret.
  destruct (ws_ready w); reflexivity.
Qed.

Lemma attempts_step JSON_parse e w :
  attempts (step JSON_parse e w) = attempts (snd (handler JSON_parse e w)).
Proof.
  unfold step. destruct (handler JSON_parse e w) as [[a | err |] w1]; reflexivity.
Qed.

(** The [close] handler, case by case on the counter. *)
Lemma ws_on_close_below JSON_parse id w :
  (attempts w < MAX_RECONNECT_ATTEMPTS)%Z ->
  step JSON_parse (WsClose id) w
  = with_timers S
      (with_history (cons (SetTimeout (RECONNECT_DELAY * attempts w)))
         (with_connection (set_ws None)
            (with_history (cons (ConsoleLog "Backend WebSocket connection closed"))
               (with_sockets (set_nth id CLOSED) w)))).
Proof.
  intros Hlt. apply Z.ltb_lt in Hlt. unfold attempts in Hlt.
  unfold step, handler, ws_on_close, bind, modify, gets, console_log, emit, ret.
  simpl. rewrite Hlt. reflexivity.
Qed.

Lemma ws_on_close_at_ceiling JSON_parse id w :
  (MAX_RECONNECT_ATTEMPTS <= attempts w)%Z ->
  step JSON_parse (WsClose id) w
  = with_connection (set_ws None)
      (with_history (cons (ConsoleLog "Backend WebSocket connection closed"))
         (with_sockets (set_nth id CLOSED) w)).
Proof.
  intros Hge. apply Z.ltb_ge in Hge. unfold attempts in Hge.
  unfold step, handler, ws_on_close, bind, modify, gets, console_log, emit, ret.
  simpl. rewrite Hge. reflexivity.
Qed.

(** The timer callback adds one to the counter. *)
Lemma reconnect_increments JSON_parse w :
  (0 < timers w)%nat ->
  attempts (step JSON_parse ReconnectTimer w) = (attempts w + 1)%Z.
Proof.
  intros Hpending. rewrite attempts_step.
  unfold handler, bind, gets. destruct (timers w) as [| n]; [lia |].
  unfold reconnect, establishConnection, bind, modify, gets, console_log, emit, ret.
  simpl. destruct (ws_ready _); reflexivity.
Qed.

(** Only the [open] handler writes a smaller value into the counter. *)
Lemma attempts_never_reset JSON_parse e w :
  (forall id, e <> WsOpen id) ->
  (attempts w <= attempts (step JSON_parse e w))%Z.
Proof.
  intros Hnot. rewrite attempts_step.
  assert (Hh : forall g w0, attempts (with_history g w0) = attempts w0) by reflexivity.
  assert (Hp : forall g w0, attempts (with_platform g w0) = attempts w0) by reflexivity.
  assert (Ht : forall g w0, attempts (with_activeTurn g w0) = attempts w0) by reflexivity.
  destruct e as [id | data now | id | id | | | | o response userMessage sent | o error];
    unfold handler.
  - elim (Hnot id). reflexivity.
  - rewrite (stable_ws_on_message attempts Hh Hp Ht). lia.
  - rewrite (stable_ws_on_error attempts Hh Hp). lia.
  - unfold ws_on_close, bind, modify, gets, console_log, emit, ret. simpl.
    destruct (_ <? _)%Z; simpl; unfold attempts; simpl; lia.
  - unfold bind, gets. destruct (timers w) as [| n]; simpl; [lia |].
    unfold reconnect, establishConnection, bind, modify, gets, console_log, emit, ret.
    simpl. destruct (ws_ready _); unfold attempts; simpl; lia.
  - unfold establishConnection, bind, modify, gets, emit, ret.
    destruct (ws_ready w); unfold attempts; simpl; lia.
  - unfold attempts. simpl. lia.
  - rewrite (stable_caller_catch attempts Hh o _
               (stable_sendWebSocketMessage_posted attempts Hh Hp Ht response userMessage sent)).
    lia.
  - rewrite (stable_caller_catch attempts Hh o _
               (stable_sendWebSocketMessage_catch attempts Hh Hp error)).
    lia.
Qed.

(** *** Handlers that schedule nothing *)

Create HintDb quiet.

Lemma quiet_ret {A} (a : A) : quiet (ret a).
Proof. intros w. reflexivity. Qed.

Lemma quiet_throw {A} (e : exn) : quiet (@throw A e).
Proof. intros w. reflexivity. Qed.

Lemma quiet_diverge {A} : quiet (@diverge A).
Proof. intros w. reflexivity. Qed.

Lemma quiet_gets {A} (g : world -> A) : quiet (gets g).
Proof. intros w. reflexivity. Qed.

Lemma quiet_bind {A B} (m : M A) (k : A -> M B) :
  quiet m -> (forall a, quiet (k a)) -> quiet (bind m k).
Proof.
  intros Hm Hk w. unfold bind. specialize (Hm w).
  destruct (m w) as [[a | e |] w1]; simpl in *; try assumption.
  rewrite Hk. assumption.
Qed.

Lemma quiet_try_catch {A} (body : M A) (handler : exn -> M A) :
  quiet body -> (forall e, quiet (handler e)) -> quiet (try_catch body handler).
Proof.
  intros Hb Hh w. unfold try_catch. specialize (Hb w).
  destruct (body w) as [[a | e |] w1]; simpl in *; try assumption.
  rewrite Hh. assumption.
Qed.

Lemma quiet_console_log line : quiet (console_log line).
Proof. intros w. reflexivity. Qed.

Lemma quiet_console_error line : quiet (console_error line).
Proof. intros w. reflexivity. Qed.

Lemma quiet_say shown : quiet (emit (Say shown)).
Proof. intros w. reflexivity. Qed.

Lemma quiet_send content : quiet (emit (WsSend content)).
Proof. intros w. reflexivity. Qed.

Lemma quiet_wait ms : quiet (emit (Wait ms)).
Proof. intros w. reflexivity. Qed.

Lemma quiet_assign g : quiet (assign g).
Proof. intros w. reflexivity. Qed.

Lemma quiet_platform_call c : quiet (platform_call c).
Proof.
  intros w. unfold platform_call.
  destruct (platform w) as [| [| e] rest]; reflexivity.
Qed.

Lemma quiet_deref m : quiet (deref m).
Proof. destruct m; [apply quiet_ret | apply quiet_throw]. Qed.

Lemma quiet_coerce s : quiet (coerce s).
Proof. destruct s; [apply quiet_ret | apply quiet_throw]. Qed.

Lemma quiet_property obj key : quiet (property obj key).
Proof. destruct obj; first [apply quiet_ret | apply quiet_throw]. Qed.

#[export] Hint Resolve quiet_ret quiet_throw quiet_diverge quiet_gets quiet_console_log
  quiet_console_error quiet_say quiet_send quiet_wait quiet_assign quiet_platform_call
  quiet_deref quiet_coerce quiet_property : quiet.

Ltac quiet_step :=
  match goal with
  | |- quiet (bind _ _) => apply quiet_bind; [| intros ?]
  | |- quiet (try_catch _ _) => apply quiet_try_catch; [| intros ?]
  | |- quiet _ => solve [auto with quiet]
  | |- quiet (if ?b then _ else _) => destruct b
  | |- quiet (match ?x with _ => _ end) => destruct x
  end.

Lemma quiet_handleErrorMessage jsonMessage cm : quiet (handleErrorMessage jsonMessage cm).
Proof. unfold handleErrorMessage. repeat quiet_step. Qed.

Lemma quiet_updateSlackMessage_rec fuel content :
  quiet (updateSlackMessage_rec fuel content).
Proof.
  induction fuel as [| fuel IH]; simpl; [apply quiet_diverge |].
  repeat quiet_step.
Qed.

Lemma quiet_updateSlackMessage content : quiet (updateSlackMessage content).
Proof. intros w. apply quiet_updateSlackMessage_rec. Qed.

Lemma quiet_post_chunks m chunks : forall i, quiet (post_chunks m i chunks).
Proof.
  induction chunks as [| c rest IH]; intros i; simpl; [apply quiet_ret |].
  repeat quiet_step.
Qed.

#[export] Hint Resolve quiet_handleErrorMessage quiet_updateSlackMessage
  quiet_post_chunks : quiet.

Lemma quiet_handleChatResponse jsonMessage cm : quiet (handleChatResponse jsonMessage cm).
Proof. unfold handleChatResponse, content_trim. repeat quiet_step. Qed.

#[export] Hint Resolve quiet_handleChatResponse : quiet.

Lemma quiet_on_frame jsonMessage now : quiet (on_frame jsonMessage now).
Proof. unfold on_frame, content_includes_marker. repeat quiet_step. Qed.

Lemma quiet_ws_on_message JSON_parse data now : quiet (ws_on_message JSON_parse data now).
Proof.
  pose proof quiet_on_frame.
  unfold ws_on_message, decode. destruct (JSON_parse data); repeat quiet_step.
Qed.

Lemma quiet_ws_on_error : quiet ws_on_error.
Proof. unfold ws_on_error. repeat quiet_step. Qed.

Lemma quiet_sendWebSocketMessage_catch error : quiet (sendWebSocketMessage_catch error).
Proof. unfold sendWebSocketMessage_catch. repeat quiet_step. Qed.

#[export] Hint Resolve quiet_sendWebSocketMessage_catch : quiet.

Lemma quiet_sendWebSocketMessage_posted response userMessage sent :
  quiet (sendWebSocketMessage_posted response userMessage sent).
Proof. unfold sendWebSocketMessage_posted. repeat quiet_step. Qed.

Lemma quiet_caller_catch o body : quiet body -> quiet (caller_catch o body).
Proof. intros Hb. unfold caller_catch. repeat quiet_step. Qed.

Lemma quiet_establishConnection : quiet establishConnection.
Proof.
  intros w. rewrite establishConnection_eq. destruct (ws_ready w); reflexivity.
Qed.

(** *** Events beside the closes and the timers *)

Lemma step_observed JSON_parse e w :
  attempts (step JSON_parse e w) = attempts (snd (handler JSON_parse e w))
  /\ timers (step JSON_parse e w) = timers (snd (handler JSON_parse e w))
  /\ scheduled_delays (history (step JSON_parse e w))
     = scheduled_delays (history (snd (handler JSON_parse e w))).
Proof.
  unfold step. destruct (handler JSON_parse e w) as [[a | err |] w1];
    repeat split; reflexivity.
Qed.

Lemma bystander_step JSON_parse e w :
  bystander e = true ->
  attempts (step JSON_parse e w) = attempts w
  /\ timers (step JSON_parse e w) = timers w
  /\ scheduled_delays (history (step JSON_parse e w)) = scheduled_delays (history w).
Proof.
  intros Hb. destruct (step_observed JSON_parse e w) as (Ha & Ht & Hd).
  rewrite Ha, Ht, Hd. clear Ha Ht Hd.
  assert (Hcases : forall m : M unit,
             stable attempts m -> stable timers m -> quiet m ->
             attempts (snd (m w)) = attempts w
             /\ timers (snd (m w)) = timers w
             /\ scheduled_delays (history (snd (m w))) = scheduled_delays (history w)).
  { intros m H1 H2 H3. repeat split; [apply H1 | apply H2 | apply H3]. }
  destruct e as [id | data now | id | id | | | | o response userMessage sent | o error];
    try discriminate; cbn [handler]; apply Hcases.
  - apply stable_ws_on_message; reflexivity.
  - apply stable_ws_on_message; reflexivity.
  - apply quiet_ws_on_message.
  - apply stable_ws_on_error; reflexivity.
  - apply stable_ws_on_error; reflexivity.
  - apply quiet_ws_on_error.
  - intros w0. rewrite establishConnection_eq. destruct (ws_ready w0); reflexivity.
  - intros w0. rewrite establishConnection_eq. destruct (ws_ready w0); reflexivity.
  - apply quiet_establishConnection.
  - intros w0. reflexivity.
  - intros w0. reflexivity.
  - apply quiet_say.
  - apply stable_caller_catch; [reflexivity |].
    apply stable_sendWebSocketMessage_posted; reflexivity.
  - apply stable_caller_catch; [reflexivity |].
    apply stable_sendWebSocketMessage_posted; reflexivity.
  - apply quiet_caller_catch, quiet_sendWebSocketMessage_posted.
  - apply stable_caller_catch; [reflexivity |].
    apply stable_sendWebSocketMessage_catch; reflexivity.
  - apply stable_caller_catch; [reflexivity |].
    apply stable_sendWebSocketMessage_catch; reflexivity.
  - apply quiet_caller_catch, quiet_sendWebSocketMessage_catch.
Qed.

Lemma run_app JSON_parse es fs w :
  run JSON_parse (es ++ fs) w = run JSON_parse fs (run JSON_parse es w).
Proof. unfold run. apply fold_left_app. Qed.

Lemma bystanders_run JSON_parse events : forall w,
  forallb bystander events = true ->
  attempts (run JSON_parse events w) = attempts w
  /\ timers (run JSON_parse events w) = timers w
  /\ scheduled_delays (history (run JSON_parse events w)) = scheduled_delays (history w).
Proof.
  induction events as [| e events IH]; intros w Hall; [repeat split |].
  cbn [forallb] in Hall. apply andb_prop in Hall. destruct Hall as [He Hall].
  change (run JSON_parse (e :: events) w)
    with (run JSON_parse events (step JSON_parse e w)).
  destruct (IH (step JSON_parse e w) Hall) as (H1 & H2 & H3).
  destruct (bystander_step JSON_parse e w He) as (H4 & H5 & H6).
  rewrite H1, H2, H3. repeat split; assumption.
Qed.

(** The firing of a pending timer: the counter goes up by one, a timer
    less is pending, nothing is scheduled. *)
Lemma reconnect_timer_step JSON_parse w n :
  timers w = S n ->
  attempts (step JSON_parse ReconnectTimer w) = (attempts w + 1)%Z
  /\ timers (step JSON_parse ReconnectTimer w) = n
  /\ scheduled_delays (history (step JSON_parse ReconnectTimer w))
     = scheduled_delays (history w).
Proof.
  intros Hn. destruct (step_observed JSON_parse ReconnectTimer w) as (Ha & Ht & Hd).
  rewrite Ha, Ht, Hd. cbn [handler]. unfold bind, gets. rewrite Hn.
  unfold reconnect, bind, modify, gets, console_log, emit.
  cbn -[establishConnection Number_toString scheduled_delays].
  rewrite establishConnection_eq. destruct (ws_ready _); repeat split; reflexivity.
Qed.

(** One failed connection among bystanders, at a counter below the
    ceiling. *)
Lemma failed_round_step JSON_parse r w :
  among_bystanders r = true ->
  (attempts w < MAX_RECONNECT_ATTEMPTS)%Z ->
  let w' := run JSON_parse (failed_round r) w in
  attempts w' = (attempts w + 1)%Z
  /\ timers w' = timers w
  /\ scheduled_delays (history w')
     = scheduled_delays (history w) ++ [(RECONNECT_DELAY * attempts w)%Z].
Proof.
  destruct r as [[before id] between]. intros Hr Hlt w'. subst w'.
  cbn [among_bystanders] in Hr. apply andb_prop in Hr. destruct Hr as [Hbefore Hbetween].
  cbn [failed_round]. rewrite run_app.
  destruct (bystanders_run JSON_parse before w Hbefore) as (Ha1 & Ht1 & Hd1).
  set (w1 := run JSON_parse before w) in *.
  change (run JSON_parse (WsClose id :: between ++ [ReconnectTimer]) w1)
    with (run JSON_parse (between ++ [ReconnectTimer]) (step JSON_parse (WsClose id) w1)).
  assert (Hlt1 : (attempts w1 < MAX_RECONNECT_ATTEMPTS)%Z) by (rewrite Ha1; exact Hlt).
  pose proof (ws_on_close_below JSON_parse id w1 Hlt1) as Hclose.
  set (w2 := step JSON_parse (WsClose id) w1) in *.
  assert (Ha2 : attempts w2 = attempts w) by (rewrite Hclose, <- Ha1; reflexivity).
  assert (Ht2 : timers w2 = S (timers w)) by (rewrite Hclose, <- Ht1; reflexivity).
  assert (Hd2 : scheduled_delays (history w2)
                = scheduled_delays (history w) ++ [(RECONNECT_DELAY * attempts w)%Z]).
  { rewrite Hclose, <- Hd1, <- Ha1. reflexivity. }
  rewrite run_app.
  destruct (bystanders_run JSON_parse between w2 Hbetween) as (Ha3 & Ht3 & Hd3).
  set (w3 := run JSON_parse between w2) in *.
  change (run JSON_parse [ReconnectTimer] w3) with (step JSON_parse ReconnectTimer w3).
  destruct (reconnect_timer_step JSON_parse w3 (timers w)) as (Ha4 & Ht4 & Hd4);
    [rewrite Ht3; exact Ht2 |].
  rewrite Ha4, Ht4, Hd4, Ha3, Hd3, Ha2, Hd2. repeat split; reflexivity.
Qed.

(** An open, then five connections that fail one after the other, among
    bystanders. *)
Lemma five_failed_rounds_among JSON_parse id rounds w :
  List.length rounds = 5%nat ->
  forallb among_bystanders rounds = true ->
  let w5 := run JSON_parse (WsOpen id :: failed_rounds_among rounds) w in
  attempts w5 = 5%Z
  /\ timers w5 = timers w
  /\ scheduled_delays (history w5)
     = scheduled_delays (history w) ++ [0; 1000; 2000; 3000; 4000]%Z.
Proof.
  intros Hlen Hall.
  destruct rounds as [| r1 [| r2 [| r3 [| r4 [| r5 [| r6 rest]]]]]]; try discriminate.
  cbn [forallb] in Hall.
  repeat (apply andb_prop in Hall; let H := fresh "Hr" in destruct Hall as [H Hall]).
  cbv zeta.
  change (run JSON_parse (WsOpen id :: failed_rounds_among [r1; r2; r3; r4; r5]) w)
    with (run JSON_parse (failed_rounds_among [r1; r2; r3; r4; r5])
            (step JSON_parse (WsOpen id) w)).
  set (w0 := step JSON_parse (WsOpen id) w).
  assert (H0 : attempts w0 = 0%Z /\ timers w0 = timers w
               /\ scheduled_delays (history w0) = scheduled_delays (history w))
    by (repeat split; reflexivity).
  destruct H0 as (Ha0 & Ht0 & Hd0).
  unfold failed_rounds_among. cbn [flat_map]. rewrite app_nil_r, !run_app.
  destruct (failed_round_step JSON_parse r1 w0 Hr) as (Ha1 & Ht1 & Hd1);
    [rewrite Ha0; reflexivity |].
  set (w1 := run JSON_parse (failed_round r1) w0) in *.
  destruct (failed_round_step JSON_parse r2 w1 Hr0) as (Ha2 & Ht2 & Hd2);
    [rewrite Ha1, Ha0; reflexivity |].
  set (w2 := run JSON_parse (failed_round r2) w1) in *.
  destruct (failed_round_step JSON_parse r3 w2 Hr1) as (Ha3 & Ht3 & Hd3);
    [rewrite Ha2, Ha1, Ha0; reflexivity |].
  set (w3 := run JSON_parse (failed_round r3) w2) in *.
  destruct (failed_round_step JSON_parse r4 w3 Hr2) as (Ha4 & Ht4 & Hd4);
    [rewrite Ha3, Ha2, Ha1, Ha0; reflexivity |].
  set (w4 := run JSON_parse (failed_round r4) w3) in *.
  destruct (failed_round_step JSON_parse r5 w4 Hr3) as (Ha5 & Ht5 & Hd5);
    [rewrite Ha4, Ha3, Ha2, Ha1, Ha0; reflexivity |].
  rewrite Ha5, Ht5, Hd5, Ha4, Ht4, Hd4, Ha3, Ht3, Hd3, Ha2, Ht2, Hd2, Ha1, Ht1, Hd1,
    Ha0, Ht0, Hd0.
  rewrite <- !app_assoc. repeat split; reflexivity.
Qed.

(** [failed_rounds] is the case without other events. *)
Lemma failed_rounds_alone ids :
  failed_rounds ids = failed_rounds_among (map (fun id => ([], id, [])) ids).
Proof.
  unfold failed_rounds, failed_rounds_among.
  induction ids as [| id ids IH]; [reflexivity |].
  cbn [map flat_map]. rewrite IH. reflexivity.
Qed.

(** C3, as stated, fails: the delay is computed from the counter before
    the timer callback increments it, so the first reconnect after a
    successful open is scheduled with delay 0, and the five delays are
    0..4000, not 1000..5000. *)
Lemma first_reconnect_is_immediate :
  let w := run keyword_parse (WsOpen 0 :: failed_rounds [0; 1; 2; 3; 4]%nat)
             (fresh_turn sample_target []) in
  scheduled_delays (history w) = [0; 1000; 2000; 3000; 4000]%Z
  /\ scheduled_delays (history w) <> [1000; 2000; 3000; 4000; 5000]%Z.
Proof. split; [reflexivity | discriminate]. Qed.

(** C3 (amended): a close that finds the counter at n < 5 schedules one
    reconnect after n × 1000 ms and leaves the counter alone; the counter
    goes up by one when a scheduled reconnect fires; consequently, after
    a successful open, when each of five closes is followed, before the
    next close, by the firing of one scheduled reconnect -- whatever
    messages, socket errors and steps of user turns come in between, and
    with no further open -- the successive reconnect delays are 0, 1000,
    2000, 3000, 4000 ms. *)
Theorem reconnect_delays_follow_counter JSON_parse :
  (forall id w,
      (attempts w < MAX_RECONNECT_ATTEMPTS)%Z ->
      let w' := step JSON_parse (WsClose id) w in
      scheduled_delays (history w')
      = scheduled_delays (history w) ++ [(RECONNECT_DELAY * attempts w)%Z]
      /\ timers w' = S (timers w)
      /\ attempts w' = attempts w)
  /\ (forall w,
         (0 < timers w)%nat ->
         attempts (step JSON_parse ReconnectTimer w) = (attempts w + 1)%Z)
  /\ (forall id rounds w,
         List.length rounds = 5%nat ->
         forallb among_bystanders rounds = true ->
         scheduled_delays
           (history (run JSON_parse (WsOpen id :: failed_rounds_among rounds) w))
         = scheduled_delays (history w) ++ [0; 1000; 2000; 3000; 4000]%Z).
Proof.
  split; [| split].
  - intros id w Hlt. simpl. rewrite (ws_on_close_below JSON_parse id w Hlt).
    repeat split; reflexivity.
  - apply reconnect_increments.
  - intros id rounds w Hlen Hall.
    apply (five_failed_rounds_among JSON_parse id rounds w Hlen Hall).
Qed.

Lemma reconnect_delays_follow_counter_witness :
  let w0 := fresh_turn sample_target [] in
  let w3 := run keyword_parse (WsOpen 0 :: failed_rounds [0; 1; 2]%nat) w0 in
  (scheduled_delays (history (step keyword_parse (WsClose 3) w3))
   = scheduled_delays (history w3) ++ [3000]%Z)
  /\ attempts (step keyword_parse ReconnectTimer (step keyword_parse (WsClose 3) w3))
     = 4%Z
  /\ scheduled_delays
       (history (run keyword_parse (WsOpen 0 :: failed_rounds_among busy_rounds) w0))
     = [0; 1000; 2000; 3000; 4000]%Z.
Proof.
  destruct (reconnect_delays_follow_counter keyword_parse) as (Hclose & Hfire & Hall).
  split; [| split].
  - apply (Hclose 3%nat
             (run keyword_parse (WsOpen 0 :: failed_rounds [0; 1; 2]%nat)
                (fresh_turn sample_target []))).
    vm_compute. reflexivity.
  - apply (Hfire (step keyword_parse (WsClose 3)
                    (run keyword_parse (WsOpen 0 :: failed_rounds [0; 1; 2]%nat)
                       (fresh_turn sample_target [])))).
    vm_compute. lia.
  - apply (Hall 0%nat busy_rounds (fresh_turn sample_target [])).
    + reflexivity.
    + reflexivity.
Defined.




(** ** The flush interval *)

(** The [stream_chunk] branch as an equation: append, then flush if the
    interval has elapsed. *)
Lemma on_frame_stream_chunk_eq c now w :
  includes c CONNECTION_MARKER = false ->
  c <> EmptyString ->
  on_frame (stream_chunk c) now w
  = let w1 := with_activeTurn
                (fun t => set_messageContent (messageContent t ++ c)%string t)
                (with_activeTurn (set_isStreaming true) w) in
    if (updateInterval <=? now - lastUpdateTime (activeTurn w))%Z
    then (Return tt,
          with_activeTurn (set_lastUpdateTime now)
            (snd (updateSlackMessage (messageContent (activeTurn w) ++ c)%string w1)))
    else (Return tt, w1).
Proof.
  intros Hm Hc.
  unfold on_frame, stream_chunk, try_catch, bind, property, ret, gets. simpl.
  rewrite Hm. simpl. apply String.eqb_neq in Hc. rewrite Hc. simpl.
  cbv zeta. simpl.
  destruct (updateInterval <=? now - lastUpdateTime (activeTurn w))%Z; [| reflexivity].
  match goal with
  | |- context [updateSlackMessage ?b ?w1] =>
      pose proof (updateSlackMessage_total b w1) as Htot;
      rewrite (surjective_pairing (updateSlackMessage b w1)), Htot
  end.
  reflexivity.
Qed.

(** The [stream_complete] branch on a buffer that is not empty. *)
Lemma on_frame_stream_complete_eq now w :
  messageContent (activeTurn w) <> EmptyString ->
  on_frame stream_complete now w
  = let w1 := with_activeTurn (set_isStreaming false)
                (with_history (cons (ConsoleLog "Stream completed")) w) in
    (Return tt,
     with_activeTurn (set_lastUpdateTime 0)
       (with_activeTurn (set_messageContent EmptyString)
          (snd (updateSlackMessage (messageContent (activeTurn w)) w1)))).
Proof.
  intros Hne.
  unfold on_frame, stream_complete, try_catch, bind, property, ret, gets. simpl.
  apply String.eqb_neq in Hne. rewrite Hne. cbv zeta. simpl.
  match goal with
  | |- context [updateSlackMessage ?b ?w1] =>
      pose proof (updateSlackMessage_total b w1) as Htot;
      rewrite (surjective_pairing (updateSlackMessage b w1)), Htot
  end.
  reflexivity.
Qed.

Lemma String_not_empty c s : String c s <> EmptyString.
Proof. discriminate. Qed.

(** C6, as stated, fails.  At a reading of [Date.now()] the update with
    text "Hello " is issued while the first chunk is handled, not 500 ms
    later: the reset time stamp 0 lies more than 500 ms in the past, and
    no timer flushes between frames.  And whatever the clock, with the
    readings 0, 100 and 600 taken literally too, the text of the final
    update is the concatenation of the two chunks, which has two
    spaces. *)
Lemma hello_trace_is_not_as_claimed :
  let update := chat_update (channel sample_target) (ts sample_target) in
  let calls T n :=
    platform_calls
      (history (on_frames (firstn n (hello_trace T)) (fresh_turn sample_target []))) in
  calls 1700000000000%Z 1%nat = [update "Hello "]
  /\ calls 1700000000000%Z 3%nat = [update "Hello "; update "Hello  world"]
  /\ calls 1700000000000%Z 3%nat <> [update "Hello "; update "Hello world"]
  /\ calls 0%Z 3%nat <> [update "Hello "; update "Hello world"].
Proof. repeat split; try reflexivity; discriminate. Qed.

(** C6 (amended): on a fresh turn, with the chunk "Hello " arriving at
    a clock reading T of at least 500 (as every reading of [Date.now()]
    is), " world" 100 ms later and [stream_complete] 600 ms later,
    provided the frames are handled one after the other -- the platform
    accepts each update before the next frame arrives -- the platform
    receives exactly one intermediate flush, issued when the first chunk
    arrives, with text "Hello "; the second chunk issues none; and the
    completion forces one final flush with text "Hello  world". *)
Theorem hello_trace_flushes target T :
  (500 <= T)%Z ->
  let calls_after n :=
    platform_calls
      (history (on_frames (firstn n (hello_trace T)) (fresh_turn target []))) in
  calls_after 1%nat = [chat_update (channel target) (ts target) "Hello "]
  /\ calls_after 2%nat = [chat_update (channel target) (ts target) "Hello "]
  /\ calls_after 3%nat = [chat_update (channel target) (ts target) "Hello ";
                          chat_update (channel target) (ts target) "Hello  world"].
Proof.
  intros HT calls_after. subst calls_after.
  unfold hello_trace, on_frames, fresh_turn.
  cbn [firstn fold_left fst snd].
  rewrite (on_frame_stream_chunk_eq "Hello " T _ eq_refl (String_not_empty _ _)).
  cbn [activeTurn lastUpdateTime].
  replace (updateInterval <=? T - 0)%Z with true
    by (symmetry; apply Z.leb_le; unfold updateInterval; lia).
  cbn -[Z.leb Z.sub Z.add on_frame].
  rewrite (on_frame_stream_chunk_eq " world" _ _ eq_refl (String_not_empty _ _)).
  cbn [activeTurn lastUpdateTime with_activeTurn set_lastUpdateTime].
  replace (updateInterval <=? T + 100 - T)%Z with false
    by (symmetry; apply Z.leb_gt; unfold updateInterval; lia).
  cbn -[Z.leb Z.sub Z.add on_frame].
  rewrite on_frame_stream_complete_eq by (apply String_not_empty).
  repeat split; reflexivity.
Qed.

Lemma hello_trace_flushes_witness :
  let T := 1700000000000%Z in
  let calls_after n :=
    platform_calls
      (history (on_frames (firstn n (hello_trace T)) (fresh_turn sample_target []))) in
  calls_after 1%nat = [chat_update (channel sample_target) (ts sample_target) "Hello "]
  /\ calls_after 2%nat = [chat_update (channel sample_target) (ts sample_target) "Hello "]
  /\ calls_after 3%nat = [chat_update (channel sample_target) (ts sample_target) "Hello ";
                          chat_update (channel sample_target) (ts sample_target)
                            "Hello  world"].
Proof.
  apply (hello_trace_flushes sample_target 1700000000000%Z). lia.
Defined.

(** ** Splitting *)

(** The loop keeps every closed chunk and the current chunk within the
    limit, as long as every line is. *)
Lemma split_step_within_limit lines : forall chunks currentChunk,
  Forall within_limit lines ->
  Forall within_limit chunks ->
  within_limit currentChunk ->
  Forall within_limit (fst (fold_left split_step lines (chunks, currentChunk)))
  /\ within_limit (snd (fold_left split_step lines (chunks, currentChunk))).
Proof.
  induction lines as [| line lines IH]; intros chunks cur Hlines Hchunks Hcur.
  - split; assumption.
  - inversion Hlines as [| ? ? Hline Hrest]; subst.
    cbn [fold_left].
    assert (Hst : Forall within_limit (fst (split_step (chunks, cur) line))
                  /\ within_limit (snd (split_step (chunks, cur) line))).
    { unfold split_step.
      destruct (Nat.ltb_spec MAX_LENGTH (String.length cur + String.length line + 1))
        as [Hover | Hfits]; cbn [fst snd].
      - split; [| assumption].
        apply Forall_app. split; [assumption | constructor; [assumption | constructor]].
      - split; [assumption |].
        destruct (String.eqb cur EmptyString); [assumption |].
        unfold within_limit. rewrite !length_append. simpl. lia. }
    destruct (split_step (chunks, cur) line) as [chunks1 cur1].
    apply IH; tauto.
Qed.

(** X10: no chunk is longer than 3000 characters when no line of the
    content is. *)
Lemma split_chunks_within_limit content :
  Forall within_limit (split_lines content) ->
  Forall within_limit (split_chunks content).
Proof.
  intros Hlines. unfold split_chunks.
  destruct (split_step_within_limit (split_lines content) [] EmptyString Hlines)
    as (Hchunks & Hcur).
  - constructor.
  - unfold within_limit. simpl. lia.
  - destruct (fold_left split_step (split_lines content) ([], EmptyString))
      as [chunks cur]. simpl in *.
    destruct (String.eqb cur EmptyString); [assumption |].
    apply Forall_app. split; [assumption | constructor; [assumption | constructor]].
Qed.

(** Once a chunk is closed or the current chunk has text, it stays so. *)
Lemma split_step_started lines : forall chunks currentChunk,
  chunks <> [] \/ currentChunk <> EmptyString ->
  fst (fold_left split_step lines (chunks, currentChunk)) <> []
  \/ snd (fold_left split_step lines (chunks, currentChunk)) <> EmptyString.
Proof.
  induction lines as [| line lines IH]; intros chunks cur Hstarted.
  - assumption.
  - cbn [fold_left].
    assert (Hst : fst (split_step (chunks, cur) line) <> []
                  \/ snd (split_step (chunks, cur) line) <> EmptyString).
    { unfold split_step.
      destruct (MAX_LENGTH <? String.length cur + String.length line + 1)%nat;
        cbn [fst snd].
      - left. destruct chunks; discriminate.
      - destruct Hstarted as [Hchunks | Hcur]; [left; assumption |].
        right. apply String.eqb_neq in Hcur. rewrite Hcur.
        destruct cur; discriminate. }
    destruct (split_step (chunks, cur) line) as [chunks1 cur1].
    apply IH. assumption.
Qed.

Lemma trimStart_head s :
  trimStart s = EmptyString
  \/ exists c rest, trimStart s = String c rest /\ isWhiteSpace c = false.
Proof.
  induction s as [| c s IH]; [left; reflexivity |].
  simpl. destruct (isWhiteSpace c) eqn:Hc; [assumption |].
  right. exists c, s. split; [reflexivity | assumption].
Qed.

Lemma trimEnd_head c rest :
  isWhiteSpace c = false -> exists rest', trimEnd (String c rest) = String c rest'.
Proof.
  intros Hc. simpl. destruct (trimEnd rest) as [| c' t].
  - rewrite Hc. exists EmptyString. reflexivity.
  - exists (String c' t). reflexivity.
Qed.

Lemma split_lines_head c rest :
  isWhiteSpace c = false ->
  exists line lines, split_lines (String c rest) = String c line :: lines.
Proof.
  intros Hc. simpl.
  destruct (Ascii.eqb_spec c (ascii_of_nat 10)) as [-> | _]; [discriminate |].
  destruct (split_lines rest) as [| l ls]; eauto.
Qed.

(** [chunks[0]] exists for every content that [handleChatResponse]
    splits: a trimmed content that is not empty yields a chunk. *)
Lemma split_chunks_not_nil s :
  trim s <> EmptyString -> split_chunks (trim s) <> [].
Proof.
  intros Hne. unfold trim in *.
  destruct (trimStart_head s) as [Hs | (c & rest & Hs & Hc)];
    rewrite Hs in *; [now elim Hne |].
  destruct (trimEnd_head c rest Hc) as (rest' & Ht). rewrite Ht.
  destruct (split_lines_head c rest' Hc) as (line & lines & Hl).
  unfold split_chunks. rewrite Hl. cbn [fold_left].
  assert (Hstarted : fst (split_step ([], EmptyString) (String c line)) <> []
                     \/ snd (split_step ([], EmptyString) (String c line)) <> EmptyString).
  { unfold split_step.
    destruct (MAX_LENGTH <? _)%nat; simpl; [left | right]; discriminate. }
  destruct (split_step ([], EmptyString) (String c line)) as [chunks0 cur0].
  pose proof (split_step_started lines chunks0 cur0 Hstarted) as Hend.
  destruct (fold_left split_step lines (chunks0, cur0)) as [chunks cur].
  simpl in Hend. destruct (String.eqb_spec cur EmptyString) as [-> | Hcur].
  - destruct Hend as [H | H]; [assumption | now elim H].
  - destruct chunks; discriminate.
Qed.

(** C2: the code breaks part (c).  The content [full_first_line] is
    trimmed, longer than the limit, and each of its two lines is within
    the limit; the loop closes the still empty current chunk before the
    first line, so the chunks are '' (sent as the text of the update),
    the first line and the second line, and joining them with newlines
    gives the content with a newline in front. *)
Theorem split_chunks_full_first_line :
  trim full_first_line = full_first_line
  /\ (MAX_LENGTH < String.length full_first_line)%nat
  /\ Forall within_limit (split_lines full_first_line)
  /\ split_chunks full_first_line = [EmptyString; repeat_char 3000 "a"; "b"]
  /\ join_lines (split_chunks full_first_line) = (LF ++ full_first_line)%string
  /\ join_lines (split_chunks full_first_line) <> full_first_line.
Proof.
  split; [vm_compute; reflexivity |].
  split; [apply Nat.ltb_lt; vm_compute; reflexivity |].
  split.
  { apply Forall_forall. intros line Hin.
    assert (Hl : split_lines full_first_line = [repeat_char 3000 "a"; "b"])
      by (vm_compute; reflexivity).
    rewrite Hl in Hin. unfold within_limit. apply Nat.leb_le.
    destruct Hin as [<- | [<- | []]]; vm_compute; reflexivity. }
  split; [vm_compute; reflexivity |].
  split; [vm_compute; reflexivity |].
  apply String.eqb_neq. vm_compute. reflexivity.
Qed.

(** The same part (c) breaks a second way: a blank line that follows a
    chunk filled to the limit starts an empty current chunk, which the
    next line replaces; the blank line is lost. *)
Lemma split_chunks_blank_line_at_boundary :
  trim blank_line_at_boundary = blank_line_at_boundary
  /\ Forall within_limit (split_lines blank_line_at_boundary)
  /\ split_chunks blank_line_at_boundary
     = [(repeat_char 1499 "a" ++ LF ++ repeat_char 1500 "a")%string; "b"]
  /\ join_lines (split_chunks blank_line_at_boundary) <> blank_line_at_boundary.
Proof.
  split; [vm_compute; reflexivity |].
  split.
  { apply Forall_forall. intros line Hin.
    assert (Hl : split_lines blank_line_at_boundary
                 = [repeat_char 1499 "a"; repeat_char 1500 "a"; EmptyString; "b"])
      by (vm_compute; reflexivity).
    rewrite Hl in Hin. unfold within_limit. apply Nat.leb_le.
    destruct Hin as [<- | [<- | [<- | [<- | []]]]]; vm_compute; reflexivity. }
  split; [vm_compute; reflexivity |].
  apply String.eqb_neq. vm_compute. reflexivity.
Qed.

(** ** Rate limits while rendering a finished message *)

(** The streaming path waits and retries: a rate-limit signal with
    [retryAfter] 2 is followed by a wait of 2000 ms and the same call
    again; without [retryAfter] the wait is 1000 ms. *)
Lemma updateSlackMessage_retries :
  rev (history (snd (updateSlackMessage "partial answer"
                       (fresh_turn sample_target
                          [Rejected (rate_limit_signal (Some 2%Z));
                           Rejected (rate_limit_signal None)]))))
  = let update := chat_update (channel sample_target) (ts sample_target)
                    "partial answer" in
    [Platform update (Rejected (rate_limit_signal (Some 2%Z))); Wait 2000;
     Platform update (Rejected (rate_limit_signal None)); Wait 1000;
     Platform update Accepted].
Proof. reflexivity. Qed.

(** C4: the code does not do what the claim says.  [handleChatResponse]
    calls the platform directly, and its [catch] only logs.  On an
    oversized answer whose second chunk is answered by a rate-limit
    signal, nothing is waited for and the post is not repeated; on a
    short answer whose update is answered by the signal, the update is
    not repeated either. *)
Theorem handleChatResponse_gives_up_on_rate_limit :
  let signal := Rejected (rate_limit_signal (Some 2%Z)) in
  let update := chat_update (channel sample_target) (ts sample_target) in
  let post := chat_postMessage (channel sample_target) (ts sample_target) in
  rev (history (snd (on_frame (chat_response two_chunk_answer) 1000%Z
                       (fresh_turn sample_target [Accepted; signal]))))
  = [ConsoleLog "Updating message with content:";
     ConsoleLog "Split content into 2 chunks";
     Platform (update (repeat_char 2000 "a")) Accepted;
     ConsoleLog "Updated first chunk:";
     Platform (post (repeat_char 2000 "b")) signal;
     ConsoleError "Error updating chat response:"]
  /\ rev (history (snd (on_frame (chat_response "short answer") 1000%Z
                          (fresh_turn sample_target [signal]))))
     = [ConsoleLog "Updating message with content:";
        Platform (update "short answer") signal;
        ConsoleError "Error updating chat response:"].
Proof. split; vm_compute; reflexivity. Qed.

(** ** The frame handler always returns *)

Lemma returns_halts {A} (m : M A) : returns m -> halts m.
Proof. intros Hm w. destruct (Hm w) as (a & Ha). rewrite Ha. discriminate. Qed.

Lemma halts_ret {A} (a : A) : halts (ret a).
Proof. intros w. discriminate. Qed.

Lemma halts_throw {A} (e : exn) : halts (@throw A e).
Proof. intros w. discriminate. Qed.

Lemma halts_gets {A} (g : world -> A) : halts (gets g).
Proof. intros w. discriminate. Qed.

Lemma halts_modify (g : world -> world) : halts (modify g).
Proof. intros w. discriminate. Qed.

Lemma halts_platform_call (c : call) : halts (platform_call c).
Proof.
  intros w. unfold platform_call.
  destruct (platform w) as [| [| e] rest]; discriminate.
Qed.

Lemma halts_bind {A B} (m : M A) (k : A -> M B) :
  halts m -> (forall a, halts (k a)) -> halts (bind m k).
Proof.
  intros Hm Hk w. unfold bind. specialize (Hm w).
  destruct (m w) as [[a | e |] w1]; simpl in *;
    [apply Hk | discriminate | now elim Hm].
Qed.

Lemma halts_try_catch {A} (body : M A) (handler : exn -> M A) :
  halts body -> (forall e, halts (handler e)) -> halts (try_catch body handler).
Proof.
  intros Hb Hh w. unfold try_catch. specialize (Hb w).
  destruct (body w) as [[a | e |] w1]; simpl in *;
    [discriminate | apply Hh | now elim Hb].
Qed.

(** A [try] whose handler returns leaves no exception behind. *)
Lemma returns_try_catch {A} (body : M A) (handler : exn -> M A) :
  halts body -> (forall e, returns (handler e)) -> returns (try_catch body handler).
Proof.
  intros Hb Hh w. unfold try_catch. specialize (Hb w).
  destruct (body w) as [[a | e |] w1]; simpl in *;
    [exists a; reflexivity | apply Hh | now elim Hb].
Qed.

Lemma returns_modify (g : world -> world) : returns (modify g).
Proof. intros w. exists tt. reflexivity. Qed.

Create HintDb halts.

#[export] Hint Resolve halts_ret halts_throw halts_gets halts_modify
  halts_platform_call returns_halts : halts.

Ltac halts_step :=
  match goal with
  | |- halts (bind _ _) => apply halts_bind; [| intros ?]
  | |- halts (try_catch _ _) => apply halts_try_catch; [| intros ?]
  | |- halts _ => solve [auto with halts]
  | |- halts (if ?b then _ else _) => destruct b
  | |- halts (match ?x with _ => _ end) => destruct x
  end.

Lemma halts_emit e : halts (emit e).
Proof. apply halts_modify. Qed.

Lemma halts_assign g : halts (assign g).
Proof. apply halts_modify. Qed.

Lemma halts_console_log line : halts (console_log line).
Proof. apply halts_modify. Qed.

Lemma halts_console_error line : halts (console_error line).
Proof. apply halts_modify. Qed.

Lemma halts_updateSlackMessage content : halts (updateSlackMessage content).
Proof. intros w. rewrite updateSlackMessage_total. discriminate. Qed.

#[export] Hint Resolve halts_emit halts_assign halts_console_log
  halts_console_error halts_updateSlackMessage : halts.

Lemma halts_post_chunks m chunks : forall i, halts (post_chunks m i chunks).
Proof.
  induction chunks as [| c rest IH]; intros i; simpl; [apply halts_ret |].
  repeat halts_step.
Qed.

Lemma halts_handleErrorMessage jsonMessage cm :
  halts (handleErrorMessage jsonMessage cm).
Proof.
  unfold handleErrorMessage, deref, coerce, property. repeat halts_step.
Qed.

Lemma halts_handleChatResponse jsonMessage cm :
  halts (handleChatResponse jsonMessage cm).
Proof.
  pose proof halts_post_chunks.
  unfold handleChatResponse, deref, content_trim, property. repeat halts_step.
Qed.

(** Whatever the frame, the clock and the platform, the handler of
    frames comes to its end and no exception leaves it. *)
Lemma on_frame_returns jsonMessage now : returns (on_frame jsonMessage now).
Proof.
  pose proof halts_handleErrorMessage. pose proof halts_handleChatResponse.
  unfold on_frame. apply returns_try_catch.
  - unfold property, content_includes_marker, coerce. repeat halts_step.
  - intros e. apply returns_modify.
Qed.

(** On a platform that stops signalling rate limits after finitely
    many answers, the handler of socket messages comes to its end. *)
Lemma ws_on_message_returns JSON_parse data now :
  returns (ws_on_message JSON_parse data now).
Proof.
  intros w. unfold ws_on_message, decode, bind.
  destruct (JSON_parse data) as [jsonMessage |]; simpl.
  - apply on_frame_returns.
  - exists tt. reflexivity.
Qed.

(** ** No exception leaves the handler of socket messages *)

(** A [try] whose [catch] block throws nothing lets no exception out,
    whatever its body does. *)
Lemma catches_all_try_catch {A} (body : M A) (handler : exn -> M A) :
  (forall e, catches_all (handler e)) -> catches_all (try_catch body handler).
Proof.
  intros Hh w error. unfold try_catch.
  destruct (body w) as [[a | e |] w1]; cbn [fst]; [discriminate | apply Hh | discriminate].
Qed.

Lemma catches_all_console_error line : catches_all (console_error line).
Proof. intros w error. discriminate. Qed.

Lemma catches_all_on_frame jsonMessage now : catches_all (on_frame jsonMessage now).
Proof.
  unfold on_frame. apply catches_all_try_catch. intros e. apply catches_all_console_error.
Qed.

(** X25: no exception leaves the handler of socket messages, whatever
    the data, the decoder, the clock, the state and the answers of the
    platform: the decoding has its own [try], and everything after it
    runs in a [try] whose [catch] block only logs.  (Whether the handler
    comes to its end is another matter: it does not while the platform
    keeps answering an update with a rate-limit signal.) *)
Theorem ws_on_message_lets_no_exception_out JSON_parse data now :
  catches_all (ws_on_message JSON_parse data now).
Proof.
  intros w error. unfold ws_on_message, decode, bind.
  destruct (JSON_parse data) as [jsonMessage |]; cbn [fst snd].
  - apply catches_all_on_frame.
  - discriminate.
Qed.

(** ** The retry loop, answer by answer *)

Lemma updateSlackMessage_rec_schedule content target signals : forall fuel tail w,
  currentMessage (activeTurn w) = Some target ->
  content <> EmptyString ->
  forallb rate_limited signals = true ->
  (forall e, hd Accepted tail = Rejected e -> rate_limited e = false) ->
  platform w = map Rejected signals ++ tail ->
  (List.length signals < fuel)%nat ->
  let update := chat_update (channel target) (ts target) content in
  let r := updateSlackMessage_rec fuel content w in
  fst r = Return tt
  /\ platform (snd r) = tl tail
  /\ activeTurn (snd r) = activeTurn w
  /\ history (snd r)
     = match hd Accepted tail with
       | Accepted => []
       | Rejected _ => [ConsoleError "Error updating message:"]
       end
       ++ Platform update (hd Accepted tail)
       :: rev (flat_map (fun e => [Platform update (Rejected e);
                                   Wait (retry_seconds e * 1000)]) signals)
       ++ history w.
Proof.
  induction signals as [| e signals IH];
    intros fuel tail w Hcm Hne Hsig Hfinal Hp Hfuel update;
    (destruct fuel as [| fuel]; [simpl in Hfuel; lia |]);
    cbn [updateSlackMessage_rec]; unfold bind, gets, try_catch, platform_call;
    rewrite Hcm; apply String.eqb_neq in Hne; rewrite Hne.
  - simpl in Hp. rewrite Hp.
    destruct tail as [| [| e] rest]; cbn.
    + rewrite Hp. repeat split; reflexivity.
    + repeat split; reflexivity.
    + rewrite (Hfinal e eq_refl). cbn. repeat split; reflexivity.
  - simpl in Hp. rewrite Hp. simpl in Hsig. apply andb_prop in Hsig.
    destruct Hsig as [He Hsig]. cbn [fst snd]. rewrite He.
    unfold emit, modify. cbn [fst snd].
    match goal with
    | |- context [updateSlackMessage_rec fuel content ?w1] =>
        destruct (IH fuel tail w1) as (Hret & Hplat & Hturn & Hhist);
        try assumption; try reflexivity
    end.
    + apply String.eqb_neq. assumption.
    + simpl in Hfuel. lia.
    + split; [exact Hret |]. split; [exact Hplat |]. split; [exact Hturn |].
      rewrite Hhist. cbn [flat_map rev app with_history with_platform history].
      simpl. rewrite <- !app_assoc. reflexivity.
Qed.



(** ** Streams without a target *)

Lemma updateSlackMessage_without_target content w :
  currentMessage (activeTurn w) = None ->
  updateSlackMessage content w = (Return tt, w).
Proof.
  intros Hcm. unfold updateSlackMessage. cbn [updateSlackMessage_rec].
  unfold bind, gets. rewrite Hcm. reflexivity.
Qed.

Lemma on_frame_stream_chunk_without_target c now w :
  currentMessage (activeTurn w) = None ->
  let w' := snd (on_frame (stream_chunk c) now w) in
  currentMessage (activeTurn w') = None
  /\ platform w' = platform w
  /\ platform_calls (history w') = platform_calls (history w).
Proof.
  intros Hcm.
  destruct (includes c CONNECTION_MARKER) eqn:Hm.
  - cbn zeta. unfold stream_chunk.
    rewrite (on_frame_marker [("type", JString "stream_chunk"); ("content", JString c)]
               c now w eq_refl Hm).
    repeat split. assumption.
  - destruct (String.eqb_spec c EmptyString) as [-> | Hc].
    + repeat split. assumption.
    + cbn zeta. rewrite (on_frame_stream_chunk_eq c now w Hm Hc). cbv zeta.
      destruct (updateInterval <=? now - lastUpdateTime (activeTurn w))%Z.
      * rewrite updateSlackMessage_without_target by exact Hcm.
        repeat split. assumption.
      * repeat split. assumption.
Qed.

(** X2: while no turn is active ([currentMessage] is [null]), a stream
    of chunks followed by [stream_complete] reaches the platform with no
    call at all, whatever the clock and the contents, and the buffer is
    empty afterwards: the streamed text is dropped. *)
Theorem stream_without_target_is_dropped chunks done w :
  currentMessage (activeTurn w) = None ->
  let w' := on_frames (chunk_frames chunks ++ [(stream_complete, done)]) w in
  platform_calls (history w') = platform_calls (history w)
  /\ platform w' = platform w
  /\ messageContent (activeTurn w') = EmptyString
  /\ isStreaming (activeTurn w') = false.
Proof.
  intros Hcm w'. subst w'. rewrite on_frames_app.
  assert (Hchunks : currentMessage (activeTurn (on_frames (chunk_frames chunks) w)) = None
                    /\ platform (on_frames (chunk_frames chunks) w) = platform w
                    /\ platform_calls (history (on_frames (chunk_frames chunks) w))
                       = platform_calls (history w)).
  { revert w Hcm. induction chunks as [| [c now] chunks IH]; intros w Hcm.
    - repeat split. assumption.
    - cbn [chunk_frames map on_frames fold_left fst snd].
      destruct (on_frame_stream_chunk_without_target c now w Hcm) as (H1 & H2 & H3).
      destruct (IH _ H1) as (H4 & H5 & H6).
      unfold on_frames, chunk_frames in *. rewrite H5, H6. repeat split; assumption. }
  destruct Hchunks as (H1 & H2 & H3).
  set (w1 := on_frames (chunk_frames chunks) w) in *.
  cbn [on_frames fold_left fst snd].
  unfold on_frame, stream_complete, try_catch, bind, property, ret, gets. simpl.
  destruct (String.eqb (messageContent (activeTurn w1)) EmptyString) eqn:Hb.
  - simpl. apply String.eqb_eq in Hb. repeat split; assumption.
  - rewrite updateSlackMessage_without_target by (simpl; exact H1).
    simpl. repeat split; assumption.
Qed.

Lemma stream_without_target_is_dropped_witness :
  let w := mkWorld (mkConnection (Some 0%nat) 0) (mkActiveTurn None "" 0 false)
             [OPEN] 0 [] [] in
  let w' := on_frames (chunk_frames [("lost ", 1000%Z); ("text", 2000%Z)]
                       ++ [(stream_complete, 3000%Z)]) w in
  platform_calls (history w') = []
  /\ platform w' = []
  /\ messageContent (activeTurn w') = EmptyString
  /\ isStreaming (activeTurn w') = false.
Proof.
  apply (stream_without_target_is_dropped [("lost ", 1000%Z); ("text", 2000%Z)] 3000%Z
           (mkWorld (mkConnection (Some 0%nat) 0) (mkActiveTurn None "" 0 false)
              [OPEN] 0 [] [])).
  reflexivity.
Defined.

(** ** How often and what the stream flushes *)

Lemma updateSlackMessage_accepted_at_once content w :
  platform w = [] ->
  let w' := snd (updateSlackMessage content w) in
  platform w' = []
  /\ activeTurn w' = activeTurn w
  /\ (call_count w <= call_count w' <= call_count w + 1)%Z.
Proof.
  intros Hp. unfold updateSlackMessage. rewrite Hp. cbn [List.length updateSlackMessage_rec].
  unfold bind, gets, try_catch, platform_call, call_count.
  destruct (currentMessage (activeTurn w)) as [m |]; [| cbn; repeat split; try assumption; lia].
  destruct (String.eqb content EmptyString); [cbn; repeat split; try assumption; lia |].
  rewrite Hp. cbn [fst snd]. split; [exact Hp |]. split; [reflexivity |].
  cbn [history with_history]. rewrite platform_calls_cons_call, length_app. simpl. lia.
Qed.

(** One chunk on an accepting platform: either nothing is flushed and
    the time stamp stays, or at most one call is issued, the interval had
    elapsed, and the time stamp is the clock reading. *)
Lemma on_frame_stream_chunk_flush c now w :
  platform w = [] ->
  let w' := snd (on_frame (stream_chunk c) now w) in
  platform w' = []
  /\ ((call_count w' = call_count w
       /\ lastUpdateTime (activeTurn w') = lastUpdateTime (activeTurn w))
      \/ ((call_count w' <= call_count w + 1)%Z
          /\ lastUpdateTime (activeTurn w') = now
          /\ (updateInterval <= now - lastUpdateTime (activeTurn w))%Z)).
Proof.
  intros Hp.
  destruct (includes c CONNECTION_MARKER) eqn:Hm.
  - cbn zeta. unfold stream_chunk.
    rewrite (on_frame_marker [("type", JString "stream_chunk"); ("content", JString c)]
               c now w eq_refl Hm).
    split; [exact Hp |]. left. split; reflexivity.
  - destruct (String.eqb_spec c EmptyString) as [-> | Hc].
    + split; [exact Hp |]. left. split; reflexivity.
    + cbn zeta. rewrite (on_frame_stream_chunk_eq c now w Hm Hc). cbv zeta.
      destruct (Z.leb_spec updateInterval (now - lastUpdateTime (activeTurn w))) as [Hdue | _].
      * match goal with
        | |- context [updateSlackMessage ?b ?w1] =>
            destruct (updateSlackMessage_accepted_at_once b w1 Hp) as (Hp' & _ & Hcount)
        end.
        cbn [fst snd]. split; [exact Hp' |]. right.
        split; [| split; [reflexivity | exact Hdue]].
        unfold call_count in *. cbn [history with_activeTurn] in *. lia.
      * split; [exact Hp |]. left. split; reflexivity.
Qed.

Lemma last_reading_ge t later : nondecreasing t later -> (t <= last_reading t later)%Z.
Proof.
  revert t. induction later as [| t' rest IH]; intros t Hs; simpl; [lia |].
  destruct Hs as [Hle Hrest]. specialize (IH t' Hrest). lia.
Qed.

(** After a flush at or before [t], the later flushes are 500 ms apart. *)
Lemma flushes_since_last chunks : forall t w,
  platform w = [] ->
  nondecreasing t (map snd chunks) ->
  let w' := on_frames (chunk_frames chunks) w in
  platform w' = []
  /\ ((call_count w' - call_count w <= 0)%Z
      \/ (updateInterval * (call_count w' - call_count w)
          <= last_reading t (map snd chunks) - lastUpdateTime (activeTurn w))%Z).
Proof.
  induction chunks as [| [c t1] chunks IH]; intros t w Hp Hs.
  - split; [exact Hp |]. left. cbn. lia.
  - cbn [map snd nondecreasing last_reading] in *. destruct Hs as [Hle Hs].
    cbn [chunk_frames map on_frames fold_left fst snd].
    destruct (on_frame_stream_chunk_flush c t1 w Hp) as (Hp1 & Hstep).
    destruct (IH t1 _ Hp1 Hs) as (Hp' & Hrest).
    pose proof (last_reading_ge t1 (map snd chunks) Hs) as Hlast.
    unfold on_frames, chunk_frames in *. split; [exact Hp' |].
    unfold updateInterval in *.
    destruct Hstep as [(Hc & Hl) | (Hc & Hl & Hdue)]; rewrite Hl in Hrest; lia.
Qed.

(** X3: when the frames are handled one after the other -- the
    platform accepts every update, and does so before the next frame
    arrives -- and the clock readings do not go back, the chunks of a
    stream between the readings t1 (first chunk) and tn (last chunk)
    cause at most 1 + (tn - t1) / 500 update calls, whatever the contents
    and the state the stream starts from. *)
Theorem chunk_flushes_are_rate_limited c1 t1 chunks w :
  platform w = [] ->
  nondecreasing t1 (map snd chunks) ->
  let w' := on_frames (chunk_frames ((c1, t1) :: chunks)) w in
  (call_count w' - call_count w
   <= 1 + (last_reading t1 (map snd chunks) - t1) / updateInterval)%Z.
Proof.
  intros Hp Hs w'.
  assert (Hbound : (updateInterval * (call_count w' - call_count w - 1)
                    <= last_reading t1 (map snd chunks) - t1)%Z).
  { subst w'. revert c1 t1 w Hp Hs.
    induction chunks as [| [c2 t2] chunks IH]; intros c1 t1 w Hp Hs.
    - cbn [chunk_frames map on_frames fold_left fst snd last_reading].
      destruct (on_frame_stream_chunk_flush c1 t1 w Hp) as (_ & Hstep).
      unfold updateInterval in *.
      destruct Hstep as [(Hc & _) | (Hc & _)]; lia.
    - destruct (on_frame_stream_chunk_flush c1 t1 w Hp) as (Hp1 & Hstep).
      cbn [map snd nondecreasing last_reading] in *. destruct Hs as [Hle Hs].
      pose proof (last_reading_ge t2 (map snd chunks) Hs) as Hlast.
      change (on_frames (chunk_frames ((c1, t1) :: (c2, t2) :: chunks)) w)
        with (on_frames (chunk_frames ((c2, t2) :: chunks))
                (snd (on_frame (stream_chunk c1) t1 w))).
      destruct Hstep as [(Hc & Hl) | (Hc & Hl & Hdue)].
      + specialize (IH c2 t2 _ Hp1 Hs). unfold updateInterval in *. lia.
      + destruct (flushes_since_last ((c2, t2) :: chunks) t1 _ Hp1 (conj Hle Hs))
          as (_ & Hrest).
        cbn [map snd last_reading] in Hrest. rewrite Hl in Hrest.
        unfold updateInterval in *. lia. }
  apply Z.div_le_lower_bound in Hbound; [lia | unfold updateInterval; lia].
Qed.

Lemma chunk_flushes_are_rate_limited_witness :
  let w := fresh_turn sample_target [] in
  let w' := on_frames (chunk_frames [("a", 1000%Z); ("b", 1200%Z); ("c", 1400%Z);
                                     ("d", 1600%Z); ("e", 2100%Z)]) w in
  (call_count w' - call_count w <= 3)%Z.
Proof.
  apply (chunk_flushes_are_rate_limited "a" 1000%Z
           [("b", 1200%Z); ("c", 1400%Z); ("d", 1600%Z); ("e", 2100%Z)]
           (fresh_turn sample_target [])).
  - reflexivity.
  - cbn. lia.
Defined.

Lemma prefix_append_r t b c :
  String.prefix t b = true -> String.prefix t (b ++ c) = true.
Proof.
  revert b. induction t as [| a t IH]; intros b H.
  - destruct (b ++ c)%string; reflexivity.
  - destruct b as [| a' b]; simpl in *; [discriminate |].
    destruct (ascii_dec a a'); [apply IH; assumption | discriminate].
Qed.

Lemma shows_prefix_of_append buffer c h :
  shows_prefix_of buffer h -> shows_prefix_of (buffer ++ c) h.
Proof.
  unfold shows_prefix_of. apply Forall_impl. intros [ch t shown | ch t shown] H;
    [apply prefix_append_r; assumption | assumption].
Qed.

Lemma shows_prefix_of_update buffer ch t r h :
  shows_prefix_of buffer h ->
  shows_prefix_of buffer (Platform (chat_update ch t buffer) r :: h).
Proof.
  intros H. unfold shows_prefix_of. rewrite platform_calls_cons_call.
  apply Forall_app. split; [exact H |]. constructor; [apply prefix_refl | constructor].
Qed.

Lemma shows_prefix_of_quiet buffer e h :
  match e with Platform _ _ => False | _ => True end ->
  shows_prefix_of buffer h -> shows_prefix_of buffer (e :: h).
Proof.
  intros He H. unfold shows_prefix_of, platform_calls in *.
  destruct e; try (now elim He); exact H.
Qed.

Lemma updateSlackMessage_rec_shows_buffer fuel : forall buffer w,
  shows_prefix_of buffer (history w) ->
  shows_prefix_of buffer (history (snd (updateSlackMessage_rec fuel buffer w))).
Proof.
  induction fuel as [| fuel IH]; intros buffer w H; [exact H |].
  cbn [updateSlackMessage_rec]. unfold bind, gets, try_catch, platform_call.
  destruct (currentMessage (activeTurn w)) as [m |]; [| exact H].
  destruct (String.eqb buffer EmptyString); [exact H |].
  destruct (platform w) as [| [| e] rest]; cbn [fst snd].
  - apply shows_prefix_of_update. exact H.
  - apply shows_prefix_of_update. exact H.
  - destruct (rate_limited e).
    + apply IH. apply shows_prefix_of_quiet; [exact I |].
      apply shows_prefix_of_update. exact H.
    + apply shows_prefix_of_quiet; [exact I |].
      apply shows_prefix_of_update. exact H.
Qed.

Lemma on_frame_stream_chunk_shows_buffer c now w :
  shows_prefix_of (messageContent (activeTurn w)) (history w) ->
  let w' := snd (on_frame (stream_chunk c) now w) in
  shows_prefix_of (messageContent (activeTurn w')) (history w').
Proof.
  intros H.
  destruct (includes c CONNECTION_MARKER) eqn:Hm.
  - cbn zeta. unfold stream_chunk.
    rewrite (on_frame_marker [("type", JString "stream_chunk"); ("content", JString c)]
               c now w eq_refl Hm).
    apply shows_prefix_of_quiet; [exact I | exact H].
  - destruct (String.eqb_spec c EmptyString) as [-> | Hc]; [exact H |].
    cbn zeta. rewrite (on_frame_stream_chunk_eq c now w Hm Hc). cbv zeta.
    destruct (updateInterval <=? now - lastUpdateTime (activeTurn w))%Z; cbn [snd].
    + match goal with
      | |- context [updateSlackMessage ?b ?w1] =>
          pose proof (stable_updateSlackMessage activeTurn
                        (fun _ _ => eq_refl) (fun _ _ => eq_refl) b w1) as Hturn;
          pose proof (updateSlackMessage_rec_shows_buffer
                        (S (List.length (platform w1))) b w1) as Hshows
      end.
      cbn [with_activeTurn activeTurn history messageContent set_lastUpdateTime] in *.
      rewrite Hturn. cbn [messageContent set_messageContent].
      apply Hshows. apply shows_prefix_of_append. exact H.
    + cbn. apply shows_prefix_of_append. exact H.
Qed.

(** A call whose text extends the text of every call so far. *)
Lemma never_rewound_snoc calls c :
  never_rewound calls ->
  Forall (fun c0 => String.prefix (call_text c0) (call_text c) = true) calls ->
  never_rewound (calls ++ [c]).
Proof.
  induction calls as [| c0 calls IH]; intros Hn Hall; cbn [app never_rewound].
  - split; constructor.
  - destruct Hn as [Hlater Hn]. inversion Hall as [| ? ? Hc0 Hrest]; subst.
    split; [| apply IH; assumption].
    apply Forall_app. split; [exact Hlater | constructor; [exact Hc0 | constructor]].
Qed.

Lemma never_rewound_update buffer ch t r h :
  shows_prefix_of buffer h ->
  never_rewound (platform_calls h) ->
  never_rewound (platform_calls (Platform (chat_update ch t buffer) r :: h)).
Proof.
  intros Hs Hn. rewrite platform_calls_cons_call. apply never_rewound_snoc; [exact Hn |].
  unfold shows_prefix_of in Hs. revert Hs. apply Forall_impl.
  intros [ch' t' shown | ch' t' shown] H; [exact H | now elim H].
Qed.

Lemma never_rewound_quiet e h :
  match e with Platform _ _ => False | _ => True end ->
  never_rewound (platform_calls h) -> never_rewound (platform_calls (e :: h)).
Proof.
  intros He H. unfold platform_calls in *.
  destruct e; try (now elim He); exact H.
Qed.

Lemma updateSlackMessage_rec_never_rewound fuel : forall buffer w,
  shows_prefix_of buffer (history w) ->
  never_rewound (platform_calls (history w)) ->
  never_rewound (platform_calls (history (snd (updateSlackMessage_rec fuel buffer w)))).
Proof.
  induction fuel as [| fuel IH]; intros buffer w Hs Hn; [exact Hn |].
  cbn [updateSlackMessage_rec]. unfold bind, gets, try_catch, platform_call.
  destruct (currentMessage (activeTurn w)) as [m |]; [| exact Hn].
  destruct (String.eqb buffer EmptyString); [exact Hn |].
  destruct (platform w) as [| [| e] rest]; cbn [fst snd].
  - apply never_rewound_update; assumption.
  - apply never_rewound_update; assumption.
  - destruct (rate_limited e).
    + apply IH.
      * apply shows_prefix_of_quiet; [exact I |]. apply shows_prefix_of_update. exact Hs.
      * apply never_rewound_quiet; [exact I |]. apply never_rewound_update; assumption.
    + apply never_rewound_quiet; [exact I |]. apply never_rewound_update; assumption.
Qed.

Lemma on_frame_stream_chunk_never_rewound c now w :
  shows_prefix_of (messageContent (activeTurn w)) (history w) ->
  never_rewound (platform_calls (history w)) ->
  never_rewound (platform_calls (history (snd (on_frame (stream_chunk c) now w)))).
Proof.
  intros Hs Hn.
  destruct (includes c CONNECTION_MARKER) eqn:Hm.
  - unfold stream_chunk.
    rewrite (on_frame_marker [("type", JString "stream_chunk"); ("content", JString c)]
               c now w eq_refl Hm).
    exact Hn.
  - destruct (String.eqb_spec c EmptyString) as [-> | Hc]; [exact Hn |].
    rewrite (on_frame_stream_chunk_eq c now w Hm Hc). cbv zeta.
    destruct (updateInterval <=? now - lastUpdateTime (activeTurn w))%Z; cbn [snd].
    + match goal with
      | |- context [updateSlackMessage ?b ?w1] =>
          pose proof (updateSlackMessage_rec_never_rewound
                        (S (List.length (platform w1))) b w1) as Hkeeps
      end.
      cbn [with_activeTurn activeTurn history messageContent set_lastUpdateTime] in *.
      apply Hkeeps; [apply shows_prefix_of_append; exact Hs | exact Hn].
    + exact Hn.
Qed.



(** ** Complete messages *)

Lemma handleChatResponse_returns jsonMessage cm :
  returns (handleChatResponse jsonMessage cm).
Proof.
  pose proof halts_post_chunks.
  unfold handleChatResponse. apply returns_try_catch.
  - unfold deref, content_trim, property. repeat halts_step.
  - intros e. apply returns_modify.
Qed.

(** A frame of type [chat_response] or [stream] with a string content
    that passes the marker check, outside streaming, is handed to
    [handleChatResponse]. *)
Lemma on_frame_complete_message members s now w :
  lookup "type" members = Some (JString "chat_response")
  \/ lookup "type" members = Some (JString "stream") ->
  lookup "content" members = Some (JString s) ->
  includes s CONNECTION_MARKER = false ->
  s <> EmptyString ->
  isStreaming (activeTurn w) = false ->
  on_frame (JObject members) now w
  = handleChatResponse (JObject members) (currentMessage (activeTurn w)) w.
Proof.
  intros Ht Hc Hm Hs Hstr.
  destruct (handleChatResponse_returns (JObject members) (currentMessage (activeTurn w)) w)
    as ([] & Hret).
  unfold on_frame, try_catch, bind, property, ret, gets.
  rewrite Hc. cbn [content_includes_marker]. rewrite Hm.
  apply String.eqb_neq in Hs.
  destruct Ht as [Ht | Ht]; rewrite Ht; cbn; rewrite Hs; cbn; rewrite Hstr; cbn;
    destruct (handleChatResponse (JObject members) (currentMessage (activeTurn w)) w)
      as [o w1]; cbn in Hret; subst o; reflexivity.
Qed.

Lemma trim_not_empty s : trim s <> EmptyString -> s <> EmptyString.
Proof. intros H ->. apply H. reflexivity. Qed.

(** X5: outside streaming and on an active turn, a [chat_response] or
    [stream] frame whose content, once trimmed, is not empty and has at
    most 3000 characters is rendered by exactly one update of the target
    message with the trimmed content; the turn is left as it was, and the
    target shows the trimmed content when the platform accepts the
    call. *)
Theorem short_response_updates_target members s target now w :
  lookup "type" members = Some (JString "chat_response")
  \/ lookup "type" members = Some (JString "stream") ->
  lookup "content" members = Some (JString s) ->
  includes s CONNECTION_MARKER = false ->
  trim s <> EmptyString ->
  (String.length (trim s) <= MAX_LENGTH)%nat ->
  isStreaming (activeTurn w) = false ->
  currentMessage (activeTurn w) = Some target ->
  let r := on_frame (JObject members) now w in
  fst r = Return tt
  /\ platform_calls (history (snd r))
     = platform_calls (history w) ++ [chat_update (channel target) (ts target) (trim s)]
  /\ activeTurn (snd r) = activeTurn w
  /\ (hd Accepted (platform w) = Accepted ->
      rendered target (history (snd r)) = Some (trim s)).
Proof.
  intros Ht Hc Hm Hne Hlen Hstr Hcm r. subst r.
  rewrite (on_frame_complete_message members s now w Ht Hc Hm (trim_not_empty s Hne) Hstr).
  rewrite Hcm.
  cbv [handleChatResponse try_catch bind property].
  rewrite Hc. cbv [content_trim ret]. apply String.eqb_neq in Hne. rewrite Hne.
  apply Nat.ltb_ge in Hlen. cbv [console_log emit modify]. rewrite Hlen.
  cbv [deref ret platform_call]. cbn [platform with_history].
  destruct (platform w) as [| [| e] rest]; cbn [fst snd hd].
  - split; [reflexivity |]. split; [reflexivity |]. split; [reflexivity |].
    intros _. cbn [history with_history rendered]. rewrite !String.eqb_refl. reflexivity.
  - split; [reflexivity |]. split; [reflexivity |]. split; [reflexivity |].
    intros _. cbn [history with_history with_platform rendered].
    rewrite !String.eqb_refl. reflexivity.
  - split; [reflexivity |]. split; [reflexivity |]. split; [reflexivity |]. discriminate.
Qed.

Lemma short_response_updates_target_witness :
  let w := fresh_turn sample_target [] in
  let r := on_frame (chat_response ("  All checks passed. " ++ LF)) 1000%Z w in
  fst r = Return tt
  /\ platform_calls (history (snd r))
     = [chat_update (channel sample_target) (ts sample_target) "All checks passed."]
  /\ activeTurn (snd r) = activeTurn w
  /\ (hd Accepted (platform w) = Accepted ->
      rendered sample_target (history (snd r)) = Some "All checks passed.").
Proof.
  apply (short_response_updates_target
           [("type", JString "chat_response");
            ("content", JString ("  All checks passed. " ++ LF))]
           ("  All checks passed. " ++ LF) sample_target 1000%Z
           (fresh_turn sample_target [])).
  - left. reflexivity.
  - reflexivity.
  - reflexivity.
  - discriminate.
  - apply Nat.leb_le. reflexivity.
  - reflexivity.
  - reflexivity.
Defined.

(** X6: a [chat_response] or [stream] frame whose content is empty or
    only white space changes nothing: no platform call is issued, the
    turn and the platform script are as before, and the handler
    returns. *)
Theorem blank_response_changes_nothing members s now w :
  lookup "type" members = Some (JString "chat_response")
  \/ lookup "type" members = Some (JString "stream") ->
  lookup "content" members = Some (JString s) ->
  trim s = EmptyString ->
  let r := on_frame (JObject members) now w in
  fst r = Return tt
  /\ platform_calls (history (snd r)) = platform_calls (history w)
  /\ activeTurn (snd r) = activeTurn w
  /\ platform (snd r) = platform w.
Proof.
  intros Ht Hc Hblank r. subst r.
  assert (Hhandle : forall cm w1,
             handleChatResponse (JObject members) cm w1 = (Return tt, w1)).
  { intros cm w1.
    cbv [handleChatResponse try_catch bind property].
    rewrite Hc. cbv [content_trim ret]. rewrite Hblank. reflexivity. }
  unfold on_frame, try_catch, bind, property, ret, gets. rewrite Hc.
  cbn [content_includes_marker].
  destruct (includes s CONNECTION_MARKER); [repeat split; reflexivity |].
  destruct Ht as [Ht | Ht]; rewrite Ht; cbn;
    destruct (negb (s =? "")%string); cbn;
    try (repeat split; reflexivity);
    destruct (isStreaming (activeTurn w)); cbn;
    try (repeat split; reflexivity);
    rewrite Hhandle; repeat split; reflexivity.
Qed.

Lemma blank_response_changes_nothing_witness :
  let w := fresh_turn sample_target [] in
  let r := on_frame (chat_response ("   " ++ LF)) 1000%Z w in
  fst r = Return tt
  /\ platform_calls (history (snd r)) = platform_calls (history w)
  /\ activeTurn (snd r) = activeTurn w
  /\ platform (snd r) = platform w.
Proof.
  apply (blank_response_changes_nothing
           [("type", JString "chat_response"); ("content", JString ("   " ++ LF))]
           ("   " ++ LF) 1000%Z (fresh_turn sample_target [])).
  - left. reflexivity.
  - reflexivity.
  - reflexivity.
Defined.

(** The posts of the chunks on a platform that accepts them all. *)
Lemma post_chunks_accepted m chunks : forall i w,
  platform w = [] ->
  let r := post_chunks m i chunks w in
  fst r = Return tt
  /\ platform (snd r) = []
  /\ activeTurn (snd r) = activeTurn w
  /\ platform_calls (history (snd r))
     = platform_calls (history w) ++ map (chat_postMessage (channel m) (ts m)) chunks.
Proof.
  induction chunks as [| c chunks IH]; intros i w Hp.
  - cbn. rewrite app_nil_r. repeat split. assumption.
  - cbn [post_chunks]. unfold bind, platform_call, console_log, emit, modify.
    rewrite Hp. cbn [fst snd].
    match goal with
    | |- context [post_chunks m (S i) chunks ?w1] =>
        destruct (IH (S i) w1) as (H1 & H2 & H3 & H4); [exact Hp |]
    end.
    cbv zeta. split; [exact H1 |]. split; [exact H2 |]. split; [exact H3 |].
    rewrite H4. cbn [history with_history map].
    change (platform_calls (ConsoleLog ?l :: ?h)) with (platform_calls h).
    rewrite platform_calls_cons_call, <- app_assoc. reflexivity.
Qed.

(** The posts of the chunks on a platform that accepts [k] of them and
    rejects the next one. *)
Lemma post_chunks_rejected m e rest chunks : forall k i w,
  platform w = repeat Accepted k ++ Rejected e :: rest ->
  (k < List.length chunks)%nat ->
  let r := post_chunks m i chunks w in
  fst r = Throw e
  /\ platform (snd r) = rest
  /\ activeTurn (snd r) = activeTurn w
  /\ platform_calls (history (snd r))
     = platform_calls (history w)
       ++ map (chat_postMessage (channel m) (ts m)) (firstn (S k) chunks).
Proof.
  induction chunks as [| c chunks IH]; intros k i w Hp Hk; [simpl in Hk; lia |].
  cbn [post_chunks]. unfold bind, platform_call, console_log, emit, modify.
  rewrite Hp. destruct k as [| k]; cbn [repeat app fst snd].
  - cbn. repeat split.
  - match goal with
    | |- context [post_chunks m (S i) chunks ?w1] =>
        destruct (IH k (S i) w1) as (H1 & H2 & H3 & H4);
        [reflexivity | simpl in Hk; lia |]
    end.
    cbv zeta. split; [exact H1 |]. split; [exact H2 |]. split; [exact H3 |].
    rewrite H4. cbn [history with_history with_platform map firstn].
    change (platform_calls (ConsoleLog ?l :: ?h)) with (platform_calls h).
    rewrite platform_calls_cons_call, <- app_assoc. reflexivity.
Qed.

(** X7: outside streaming, on an active turn and a platform that
    accepts every call, a [chat_response] or [stream] frame whose trimmed
    content is longer than 3000 characters is rendered chunk by chunk in
    split order: the first chunk by an update of the target message,
    every other chunk by a post in the thread of the target; afterwards
    the target message object carries the whole trimmed content as its
    [text]. *)
Theorem oversized_response_is_posted_in_order members s target now w :
  lookup "type" members = Some (JString "chat_response")
  \/ lookup "type" members = Some (JString "stream") ->
  lookup "content" members = Some (JString s) ->
  includes s CONNECTION_MARKER = false ->
  (MAX_LENGTH < String.length (trim s))%nat ->
  isStreaming (activeTurn w) = false ->
  currentMessage (activeTurn w) = Some target ->
  platform w = [] ->
  let r := on_frame (JObject members) now w in
  fst r = Return tt
  /\ platform_calls (history (snd r))
     = platform_calls (history w) ++ chunk_calls target (split_chunks (trim s))
  /\ currentMessage (activeTurn (snd r))
     = Some (mkMessage (channel target) (ts target) (Some (trim s))).
Proof.
  intros Ht Hc Hm Hlen Hstr Hcm Hp r. subst r.
  assert (Hne : trim s <> EmptyString).
  { intros H. rewrite H in Hlen. simpl in Hlen. lia. }
  rewrite (on_frame_complete_message members s now w Ht Hc Hm (trim_not_empty s Hne) Hstr).
  rewrite Hcm.
  pose proof (split_chunks_not_nil s Hne) as Hchunks.
  cbv [handleChatResponse try_catch bind property].
  rewrite Hc. cbv [content_trim ret]. apply String.eqb_neq in Hne. rewrite Hne.
  apply Nat.ltb_lt in Hlen. cbv [console_log emit modify]. rewrite Hlen.
  cbv [deref ret platform_call]. cbn [platform with_history]. rewrite Hp.
  destruct (split_chunks (trim s)) as [| first others]; [now elim Hchunks |].
  cbn [hd tl chunk_calls].
  match goal with
  | |- context [post_chunks target 1 others ?w1] =>
      destruct (post_chunks_accepted target others 1 w1) as (H1 & H2 & H3 & H4);
      [exact Hp |];
      destruct (post_chunks target 1 others w1) as [o w2]
  end.
  cbn [fst snd] in *. subst o. cbv [assign modify]. cbn [fst snd].
  split; [reflexivity |]. split; [| reflexivity].
  cbn [history with_history with_activeTurn].
  change (platform_calls (ConsoleLog ?l :: ?h)) with (platform_calls h).
  rewrite H4. cbn [history with_history].
  change (platform_calls (ConsoleLog ?l :: ?h)) with (platform_calls h).
  rewrite platform_calls_cons_call.
  change (platform_calls (ConsoleLog ?l :: ?h)) with (platform_calls h).
  rewrite <- app_assoc. reflexivity.
Qed.

Lemma oversized_response_is_posted_in_order_witness :
  let w := fresh_turn sample_target [] in
  let r := on_frame (chat_response two_chunk_answer) 1000%Z w in
  fst r = Return tt
  /\ platform_calls (history (snd r))
     = [chat_update (channel sample_target) (ts sample_target) (repeat_char 2000 "a");
        chat_postMessage (channel sample_target) (ts sample_target)
          (repeat_char 2000 "b")]
  /\ currentMessage (activeTurn (snd r))
     = Some (mkMessage (channel sample_target) (ts sample_target)
               (Some two_chunk_answer)).
Proof.
  assert (Htrim : trim two_chunk_answer = two_chunk_answer) by (vm_compute; reflexivity).
  assert (Hsplit : split_chunks two_chunk_answer
                   = [repeat_char 2000 "a"; repeat_char 2000 "b"])
    by (vm_compute; reflexivity).
  pose proof (oversized_response_is_posted_in_order
                [("type", JString "chat_response"); ("content", JString two_chunk_answer)]
                two_chunk_answer sample_target 1000%Z (fresh_turn sample_target [])) as H.
  rewrite Htrim, Hsplit in H. apply H.
  - left. reflexivity.
  - reflexivity.
  - vm_compute. reflexivity.
  - apply Nat.ltb_lt. vm_compute. reflexivity.
  - reflexivity.
  - reflexivity.
  - reflexivity.
Defined.

(** X8: in that rendering of an oversized answer nothing is retried or
    skipped over.  When the platform accepts the first [k] calls and
    rejects the next one, for whatever reason, exactly those [k + 1]
    calls are issued, the chunks after them are never posted, the
    rejection is logged, the [text] of the target is not recorded, and
    the handler returns. *)
Theorem oversized_response_stops_at_first_rejection
  members s target now w k e rest :
  lookup "type" members = Some (JString "chat_response")
  \/ lookup "type" members = Some (JString "stream") ->
  lookup "content" members = Some (JString s) ->
  includes s CONNECTION_MARKER = false ->
  (MAX_LENGTH < String.length (trim s))%nat ->
  isStreaming (activeTurn w) = false ->
  currentMessage (activeTurn w) = Some target ->
  platform w = repeat Accepted k ++ Rejected e :: rest ->
  (k < List.length (split_chunks (trim s)))%nat ->
  let r := on_frame (JObject members) now w in
  fst r = Return tt
  /\ platform_calls (history (snd r))
     = platform_calls (history w)
       ++ firstn (S k) (chunk_calls target (split_chunks (trim s)))
  /\ hd_error (history (snd r)) = Some (ConsoleError "Error updating chat response:")
  /\ activeTurn (snd r) = activeTurn w
  /\ platform (snd r) = rest.
Proof.
  intros Ht Hc Hm Hlen Hstr Hcm Hp Hk r. subst r.
  assert (Hne : trim s <> EmptyString).
  { intros H. rewrite H in Hlen. simpl in Hlen. lia. }
  rewrite (on_frame_complete_message members s now w Ht Hc Hm (trim_not_empty s Hne) Hstr).
  rewrite Hcm.
  cbv [handleChatResponse try_catch bind property].
  rewrite Hc. cbv [content_trim ret]. apply String.eqb_neq in Hne. rewrite Hne.
  apply Nat.ltb_lt in Hlen. cbv [console_log emit modify]. rewrite Hlen.
  cbv [deref ret platform_call]. cbn [platform with_history]. rewrite Hp.
  destruct (split_chunks (trim s)) as [| first others]; [simpl in Hk; lia |].
  cbn [hd tl chunk_calls].
  destruct k as [| k]; cbn [repeat app fst snd].
  - cbv [console_error emit modify]. cbn.
    change (platform_calls (ConsoleLog ?l :: ?h)) with (platform_calls h).
    repeat split.
  - match goal with
    | |- context [post_chunks target 1 others ?w1] =>
        destruct (post_chunks_rejected target e rest others k 1 w1)
          as (H1 & H2 & H3 & H4);
        [reflexivity | simpl in Hk; lia |];
        destruct (post_chunks target 1 others w1) as [o w2]
    end.
    cbn [fst snd] in *. subst o. cbv [console_error emit modify]. cbn [fst snd].
    split; [reflexivity |]. split; [| repeat split; assumption].
    cbn [history with_history with_platform firstn] in *.
    change (platform_calls (ConsoleError ?l :: ?h)) with (platform_calls h).
    rewrite H4.
    change (platform_calls (ConsoleLog ?l :: ?h)) with (platform_calls h).
    rewrite platform_calls_cons_call.
    change (platform_calls (ConsoleLog ?l :: ?h)) with (platform_calls h).
    rewrite <- app_assoc.
    change (platform_calls (ConsoleLog ?l :: ?h)) with (platform_calls h).
    destruct others; cbn [map app]; rewrite ?firstn_map; reflexivity.
Qed.

Lemma oversized_response_stops_at_first_rejection_witness :
  let signal := rate_limit_signal (Some 2%Z) in
  let w := fresh_turn sample_target [Accepted; Rejected signal; Accepted] in
  let r := on_frame (chat_response two_chunk_answer) 1000%Z w in
  fst r = Return tt
  /\ platform_calls (history (snd r))
     = platform_calls (history w)
       ++ firstn 2 (chunk_calls sample_target (split_chunks (trim two_chunk_answer)))
  /\ hd_error (history (snd r)) = Some (ConsoleError "Error updating chat response:")
  /\ activeTurn (snd r) = activeTurn w
  /\ platform (snd r) = [Accepted].
Proof.
  apply (oversized_response_stops_at_first_rejection
           [("type", JString "chat_response"); ("content", JString two_chunk_answer)]
           two_chunk_answer sample_target 1000%Z
           (fresh_turn sample_target
              [Accepted; Rejected (rate_limit_signal (Some 2%Z)); Accepted])
           1%nat (rate_limit_signal (Some 2%Z)) [Accepted]).
  - left. reflexivity.
  - reflexivity.
  - vm_compute. reflexivity.
  - apply Nat.ltb_lt. vm_compute. reflexivity.
  - reflexivity.
  - reflexivity.
  - reflexivity.
  - apply Nat.ltb_lt. vm_compute. reflexivity.
Defined.

(** ** What the splitter keeps *)

Lemma split_lines_not_nil s : split_lines s <> [].
Proof.
  destruct s as [| c s]; cbn [split_lines]; [discriminate |].
  destruct (Ascii.eqb c (ascii_of_nat 10)); [discriminate |].
  destruct (split_lines s); discriminate.
Qed.

(** [join('\n')] as the first part followed by every other part with a
    newline in front. *)
Lemma join_lines_cons x l :
  join_lines (x :: l) = (x ++ concat_all (map (String.append LF) l))%string.
Proof.
  revert x. induction l as [| y l IH]; intros x.
  - cbn. rewrite append_nil_r. reflexivity.
  - change (join_lines (x :: y :: l)) with (x ++ LF ++ join_lines (y :: l))%string.
    rewrite IH. cbn [map concat_all fold_right]. rewrite !append_assoc. reflexivity.
Qed.

Lemma concat_all_app a b : concat_all (a ++ b) = (concat_all a ++ concat_all b)%string.
Proof.
  induction a as [| x a IH]; cbn; [reflexivity |].
  unfold concat_all in IH. rewrite IH, append_assoc. reflexivity.
Qed.

(** Splitting at the newlines and joining with newlines gives the text
    back. *)
Lemma join_split_lines s : join_lines (split_lines s) = s.
Proof.
  induction s as [| c s IH]; [reflexivity |].
  cbn [split_lines]. pose proof (split_lines_not_nil s) as Hnil.
  destruct (split_lines s) as [| l ls]; [now elim Hnil |].
  rewrite join_lines_cons in IH.
  destruct (Ascii.eqb_spec c (ascii_of_nat 10)) as [-> | _].
  - rewrite join_lines_cons. cbn [map concat_all fold_right].
    change (concat_all (map (String.append LF) ls))
      with (fold_right String.append EmptyString (map (String.append LF) ls)) in IH.
    rewrite append_assoc. cbn. f_equal. rewrite <- IH. reflexivity.
  - rewrite join_lines_cons. cbn. f_equal. exact IH.
Qed.

(** Closing the current chunk or growing it by a line leaves the joined
    text of chunks, current chunk and remaining lines the same, as long
    as the current chunk has text. *)
Lemma split_step_joins lines : forall chunks cur,
  cur <> EmptyString ->
  Forall (fun l => l <> EmptyString) lines ->
  snd (fold_left split_step lines (chunks, cur)) <> EmptyString
  /\ join_lines (fst (fold_left split_step lines (chunks, cur))
                 ++ [snd (fold_left split_step lines (chunks, cur))])
     = join_lines (chunks ++ cur :: lines).
Proof.
  induction lines as [| line lines IH]; intros chunks cur Hcur Hlines.
  - split; [exact Hcur | reflexivity].
  - inversion Hlines as [| ? ? Hline Hrest]; subst.
    cbn [fold_left]. unfold split_step at 2 4 6.
    destruct (MAX_LENGTH <? String.length cur + String.length line + 1)%nat.
    + destruct (IH (chunks ++ [cur]) line Hline Hrest) as (H1 & H2).
      split; [exact H1 |]. rewrite H2, <- app_assoc. reflexivity.
    + apply String.eqb_neq in Hcur. rewrite Hcur.
      destruct (IH chunks (cur ++ LF ++ line)%string) as (H1 & H2);
        [destruct cur; discriminate | exact Hrest |].
      split; [exact H1 |]. rewrite H2.
      destruct chunks as [| c0 chunks]; cbn [app]; rewrite !join_lines_cons.
      * cbn [map concat_all fold_right]. rewrite !append_assoc. reflexivity.
      * rewrite !map_app, !concat_all_app. cbn [map concat_all fold_right].
        rewrite !append_assoc. reflexivity.
Qed.

(** X9: the splitter gives the content back when it can.  If no line of
    the content is empty and the first line is shorter than 3000
    characters, joining the chunks with single newlines yields the
    content, character for character. *)
Theorem split_chunks_join_gives_content_back content :
  Forall (fun l => l <> EmptyString) (split_lines content) ->
  (String.length (hd EmptyString (split_lines content)) < MAX_LENGTH)%nat ->
  join_lines (split_chunks content) = content.
Proof.
  intros Hlines Hfirst. unfold split_chunks.
  pose proof (join_split_lines content) as Hjoin.
  pose proof (split_lines_not_nil content) as Hnil.
  destruct (split_lines content) as [| l1 lines]; [now elim Hnil |].
  inversion Hlines as [| ? ? Hl1 Hrest]; subst.
  cbn [hd] in Hfirst. cbn [fold_left]. unfold split_step at 2.
  cbn [String.length Nat.add String.eqb].
  replace (MAX_LENGTH <? String.length l1 + 1)%nat with false
    by (symmetry; apply Nat.ltb_ge; lia).
  destruct (split_step_joins lines [] l1 Hl1 Hrest) as (Hcur & Hsame).
  destruct (fold_left split_step lines ([], l1)) as [chunks cur].
  cbn [fst snd app] in *. apply String.eqb_neq in Hcur. rewrite Hcur.
  rewrite Hsame. reflexivity.
Qed.

Lemma split_chunks_join_gives_content_back_witness :
  join_lines (split_chunks two_chunk_answer) = two_chunk_answer.
Proof.
  apply (split_chunks_join_gives_content_back two_chunk_answer).
  - assert (Hl : split_lines two_chunk_answer
                 = [repeat_char 2000 "a"; repeat_char 2000 "b"])
      by (vm_compute; reflexivity).
    rewrite Hl. repeat constructor; discriminate.
  - apply Nat.ltb_lt. vm_compute. reflexivity.
Defined.

Lemma split_chunks_within_limit_witness :
  Forall within_limit (split_chunks full_first_line).
Proof.
  apply (split_chunks_within_limit full_first_line).
  assert (Hl : split_lines full_first_line = [repeat_char 3000 "a"; "b"])
    by (vm_compute; reflexivity).
  rewrite Hl. repeat constructor; unfold within_limit; apply Nat.leb_le;
    vm_compute; reflexivity.
Defined.

(** A chunk that was closed stays. *)
Lemma split_step_keeps_chunks x lines : forall chunks cur,
  In x chunks -> In x (fst (fold_left split_step lines (chunks, cur))).
Proof.
  induction lines as [| line lines IH]; intros chunks cur Hin; [exact Hin |].
  cbn [fold_left]. unfold split_step at 2.
  destruct (MAX_LENGTH <? String.length cur + String.length line + 1)%nat.
  - apply IH. apply in_or_app. left. exact Hin.
  - apply IH. exact Hin.
Qed.

(** A current chunk of 3000 characters or more is closed as it is. *)
Lemma split_step_long_current line lines : forall chunks,
  (MAX_LENGTH <= String.length line)%nat ->
  let st := fold_left split_step lines (chunks, line) in
  In line (if String.eqb (snd st) EmptyString then fst st else fst st ++ [snd st]).
Proof.
  intros chunks Hlong. destruct lines as [| next lines].
  - cbn [fold_left fst snd].
    destruct (String.eqb_spec line EmptyString) as [-> | _];
      [unfold MAX_LENGTH in Hlong; simpl in Hlong; lia |].
    apply in_or_app. right. left. reflexivity.
  - cbn [fold_left].
    assert (Hstep : split_step (chunks, line) next = (chunks ++ [line], next)).
    { unfold split_step.
      replace (MAX_LENGTH <? String.length line + String.length next + 1)%nat with true
        by (symmetry; apply Nat.ltb_lt; lia).
      reflexivity. }
    rewrite Hstep.
    assert (Hkept : In line (fst (fold_left split_step lines (chunks ++ [line], next)))).
    { apply split_step_keeps_chunks. apply in_or_app. right. left. reflexivity. }
    destruct (String.eqb _ EmptyString); [exact Hkept |].
    apply in_or_app. left. exact Hkept.
Qed.

(** X11: a line of 3000 characters or more is never cut, merged or
    dropped: it is one of the chunks, as it is. *)
Theorem long_line_is_a_chunk_of_its_own content line :
  In line (split_lines content) ->
  (MAX_LENGTH <= String.length line)%nat ->
  In line (split_chunks content).
Proof.
  intros Hin Hlong. unfold split_chunks.
  destruct (in_split _ _ Hin) as (before & after & Hlines). rewrite Hlines.
  rewrite fold_left_app. cbn [fold_left].
  destruct (fold_left split_step before ([], EmptyString)) as [chunks cur].
  assert (Hstep : split_step (chunks, cur) line = (chunks ++ [cur], line)).
  { unfold split_step.
    replace (MAX_LENGTH <? String.length cur + String.length line + 1)%nat with true
      by (symmetry; apply Nat.ltb_lt; lia).
    reflexivity. }
  rewrite Hstep.
  pose proof (split_step_long_current line after (chunks ++ [cur]) Hlong) as H.
  cbv zeta in H.
  destruct (fold_left split_step after (chunks ++ [cur], line)) as [chunks' cur'].
  exact H.
Qed.

Lemma long_line_is_a_chunk_of_its_own_witness :
  In (repeat_char 3000 "a") (split_chunks full_first_line).
Proof.
  apply (long_line_is_a_chunk_of_its_own full_first_line (repeat_char 3000 "a")).
  - assert (Hl : split_lines full_first_line = [repeat_char 3000 "a"; "b"])
      by (vm_compute; reflexivity).
    rewrite Hl. left. reflexivity.
  - apply Nat.leb_le. vm_compute. reflexivity.
Defined.

(** ** The connection variable *)

Lemma length_set_nth {A} i (v : A) l : List.length (set_nth i v l) = List.length l.
Proof.
  revert i. induction l as [| x l IH]; intros i; [destruct i; reflexivity |].
  destruct i; simpl; [reflexivity | now rewrite IH].
Qed.

Lemma set_nth_last {A} (v x : A) l : set_nth (List.length l) v (l ++ [x]) = l ++ [v].
Proof. induction l as [| y l IH]; simpl; [reflexivity | now rewrite IH]. Qed.

Lemma nth_error_last {A} (x : A) l : nth_error (l ++ [x]) (List.length l) = Some x.
Proof. induction l as [| y l IH]; simpl; [reflexivity | exact IH]. Qed.

Lemma ws_refers_to_socket_same w w' :
  ws (connection w') = ws (connection w) ->
  List.length (sockets w') = List.length (sockets w) ->
  ws_refers_to_socket w -> ws_refers_to_socket w'.
Proof. unfold ws_refers_to_socket. intros -> ->. trivial. Qed.

Lemma establishConnection_refers w :
  ws_refers_to_socket w ->
  ws_refers_to_socket (snd (establishConnection w))
  /\ (List.length (sockets w) <= List.length (sockets (snd (establishConnection w))))%nat.
Proof.
  intros H. rewrite establishConnection_eq.
  destruct (ws_ready w); cbn [snd]; [split; [exact H | lia] |].
  unfold ws_refers_to_socket. cbn. rewrite length_app. cbn. lia.
Qed.

(** X12: [ws] never dangles and sockets are never forgotten.  If [ws]
    is [null] or refers to a socket that was created, the same holds
    after every event, and the number of sockets created so far does not
    go down. *)
Theorem ws_always_refers_to_a_socket JSON_parse e w :
  ws_refers_to_socket w ->
  ws_refers_to_socket (step JSON_parse e w)
  /\ (List.length (sockets w) <= List.length (sockets (step JSON_parse e w)))%nat.
Proof.
  intros H.
  assert (Hstep : ws (connection (step JSON_parse e w))
                  = ws (connection (snd (handler JSON_parse e w)))
                  /\ sockets (step JSON_parse e w) = sockets (snd (handler JSON_parse e w))).
  { unfold step. destruct (handler JSON_parse e w) as [[a | err |] w1]; split; reflexivity. }
  destruct Hstep as (Hws & Hsockets).
  assert (Hquiet : forall m : M unit,
             stable (fun w0 => (ws (connection w0), sockets w0)) m ->
             snd (handler JSON_parse e w) = snd (m w) ->
             ws_refers_to_socket (step JSON_parse e w)
             /\ (List.length (sockets w) <= List.length (sockets (step JSON_parse e w)))%nat).
  { intros m Hm Heq. specialize (Hm w). injection Hm as Hw Hs.
    split.
    - apply (ws_refers_to_socket_same w); [| | exact H].
      + rewrite Hws, Heq. exact Hw.
      + rewrite Hsockets, Heq, Hs. reflexivity.
    - rewrite Hsockets, Heq, Hs. lia. }
  set (f := fun w0 : world => (ws (connection w0), sockets w0)) in *.
  assert (Hh : forall g w0, f (with_history g w0) = f w0) by reflexivity.
  assert (Hp : forall g w0, f (with_platform g w0) = f w0) by reflexivity.
  assert (Ht : forall g w0, f (with_activeTurn g w0) = f w0) by reflexivity.
  destruct e as [id | data now | id | id | | | | o response userMessage sent | o error].
  - split.
    + apply (ws_refers_to_socket_same w); [rewrite Hws | rewrite Hsockets | exact H].
      * reflexivity.
      * cbn. apply length_set_nth.
    + rewrite Hsockets. cbn. rewrite length_set_nth. lia.
  - apply (Hquiet (ws_on_message JSON_parse data now)); [| reflexivity].
    apply stable_ws_on_message; assumption.
  - apply (Hquiet ws_on_error); [| reflexivity].
    apply stable_ws_on_error; assumption.
  - split.
    + unfold ws_refers_to_socket. rewrite Hws.
      cbn [handler]. unfold ws_on_close, bind, modify, gets, console_log, emit, ret.
      cbn. destruct (_ <? _)%Z; cbn; exact I.
    + rewrite Hsockets.
      cbn [handler]. unfold ws_on_close, bind, modify, gets, console_log, emit, ret.
      cbn. destruct (_ <? _)%Z; cbn; rewrite length_set_nth; lia.
  - unfold ws_refers_to_socket. rewrite Hws, Hsockets.
    cbn [handler]. unfold bind, gets. destruct (timers w) as [| n]; cbn [ret snd].
    + split; [exact H | lia].
    + unfold reconnect, bind, modify, gets, console_log, emit.
      cbn -[establishConnection Number_toString].
      match goal with
      | |- context [establishConnection ?w1] =>
          destruct (establishConnection_refers w1) as (Hr & Hl); [exact H |];
          destruct (establishConnection w1) as [[[] | err |] w2]
      end; cbn [fst snd] in *; split; assumption.
  - unfold ws_refers_to_socket. rewrite Hws, Hsockets. cbn [handler].
    apply establishConnection_refers. exact H.
  - apply (Hquiet (emit (Say THINKING))); [| reflexivity].
    apply stable_emit. assumption.
  - apply (Hquiet (caller_catch o (sendWebSocketMessage_posted response userMessage sent)));
      [| reflexivity].
    apply stable_caller_catch; [assumption |].
    apply stable_sendWebSocketMessage_posted; assumption.
  - apply (Hquiet (caller_catch o (sendWebSocketMessage_catch error))); [| reflexivity].
    apply stable_caller_catch; [assumption |].
    apply stable_sendWebSocketMessage_catch; assumption.
Qed.

Lemma ws_always_refers_to_a_socket_witness :
  let w := fresh_turn sample_target [] in
  let w' := step keyword_parse ReconnectTimer (step keyword_parse (WsClose 0) w) in
  ws_refers_to_socket w'
  /\ (List.length (sockets (step keyword_parse (WsClose 0) w))
      <= List.length (sockets w'))%nat.
Proof.
  apply (ws_always_refers_to_a_socket keyword_parse ReconnectTimer
           (step keyword_parse (WsClose 0) (fresh_turn sample_target []))).
  exact I.
Defined.

Lemma step_TurnBegin JSON_parse w :
  step JSON_parse TurnBegin w = snd (establishConnection w).
Proof.
  unfold step. cbn [handler]. rewrite establishConnection_eq.
  destruct (ws_ready w); reflexivity.
Qed.

(** X13: [establishConnection] reuses a socket only once it is open.
    Two user turns that begin before any socket has opened create two
    sockets, the second replacing the first in [ws]; if the socket opens
    in between, the second turn creates none. *)
Theorem establishConnection_reuses_only_open_sockets JSON_parse w :
  ws_ready w = false ->
  let id := List.length (sockets w) in
  let twice := run JSON_parse [TurnBegin; TurnBegin] w in
  let opened := run JSON_parse [TurnBegin; WsOpen id; TurnBegin] w in
  sockets twice = sockets w ++ [CONNECTING; CONNECTING]
  /\ ws (connection twice) = Some (S id)
  /\ sockets opened = sockets w ++ [OPEN]
  /\ ws (connection opened) = Some id.
Proof.
  intros Hready id twice opened. subst twice opened id.
  unfold run. cbn [fold_left]. rewrite !step_TurnBegin.
  rewrite (establishConnection_eq w), Hready. cbn [snd].
  set (w1 := with_history _ _).
  assert (Hw1 : ws_ready w1 = false).
  { unfold ws_ready, w1. cbn. rewrite nth_error_last. reflexivity. }
  rewrite (establishConnection_eq w1), Hw1. cbn [snd].
  split; [unfold w1; cbn; rewrite <- app_assoc; reflexivity |].
  split; [unfold w1; cbn; rewrite length_app; cbn; f_equal; lia |].
  set (w2 := step JSON_parse (WsOpen (List.length (sockets w))) w1).
  assert (Hs2 : sockets w2 = sockets w ++ [OPEN]).
  { unfold w2, w1. cbn. apply set_nth_last. }
  assert (Hws2 : ws (connection w2) = Some (List.length (sockets w))) by reflexivity.
  assert (Hw2 : ws_ready w2 = true).
  { unfold ws_ready. rewrite Hws2, Hs2, nth_error_last. reflexivity. }
  rewrite (establishConnection_eq w2), Hw2. cbn [snd]. split; assumption.
Qed.

Lemma establishConnection_reuses_only_open_sockets_witness :
  let w := mkWorld (mkConnection None 0) (mkActiveTurn None "" 0 false) [] 0 [] [] in
  let twice := run keyword_parse [TurnBegin; TurnBegin] w in
  let opened := run keyword_parse [TurnBegin; WsOpen 0; TurnBegin] w in
  sockets twice = [CONNECTING; CONNECTING]
  /\ ws (connection twice) = Some 1%nat
  /\ sockets opened = [OPEN]
  /\ ws (connection opened) = Some 0%nat.
Proof.
  apply (establishConnection_reuses_only_open_sockets keyword_parse
           (mkWorld (mkConnection None 0) (mkActiveTurn None "" 0 false) [] 0 [] [])).
  reflexivity.
Defined.

(** X14: the [close] of any socket, also of one that [ws] no longer
    refers to, sets [ws] to [null]; the next turn therefore creates a new
    socket, whatever the state of the socket that [ws] referred to. *)
Theorem close_of_any_socket_forgets_ws JSON_parse id w :
  ws (connection (step JSON_parse (WsClose id) w)) = None
  /\ let w' := run JSON_parse [WsClose id; TurnBegin] w in
     sockets w' = set_nth id CLOSED (sockets w) ++ [CONNECTING]
     /\ ws (connection w') = Some (List.length (sockets w)).
Proof.
  assert (Hclose : ws (connection (step JSON_parse (WsClose id) w)) = None
                   /\ sockets (step JSON_parse (WsClose id) w) = set_nth id CLOSED (sockets w)).
  { unfold step. cbn [handler].
    unfold ws_on_close, bind, modify, gets, console_log, emit, ret. cbn.
    destruct (_ <? _)%Z; split; reflexivity. }
  destruct Hclose as (Hws & Hs). split; [exact Hws |].
  unfold run. cbn [fold_left]. rewrite step_TurnBegin, establishConnection_eq.
  unfold ws_ready. rewrite Hws. cbn. rewrite Hs, length_set_nth.
  split; reflexivity.
Qed.

(** X15: a socket error by itself neither schedules a reconnect nor
    touches [ws], the counter or the turn; its only platform call is one
    update of the target with the generic failure text, issued if and
    only if a turn is active. *)
Theorem socket_error_shows_generic_failure JSON_parse id w :
  let w' := step JSON_parse (WsError id) w in
  platform_calls (history w')
  = platform_calls (history w)
    ++ match currentMessage (activeTurn w) with
       | Some m => [chat_update (channel m) (ts m) GENERIC_FAILURE]
       | None => []
       end
  /\ activeTurn w' = activeTurn w
  /\ connection w' = connection w
  /\ sockets w' = sockets w
  /\ timers w' = timers w
  /\ scheduled_delays (history w') = scheduled_delays (history w).
Proof.
  unfold step. cbn [handler].
  unfold ws_on_error, bind, gets, console_error, emit, modify, try_catch, platform_call.
  cbn -[GENERIC_FAILURE platform_calls scheduled_delays].
  destruct (currentMessage (activeTurn w)) as [m |].
  - cbn -[GENERIC_FAILURE platform_calls scheduled_delays].
    destruct (platform w) as [| [| e] rest]; cbn -[GENERIC_FAILURE];
      repeat split; reflexivity.
  - cbn. rewrite app_nil_r. repeat split; reflexivity.
Qed.

(** ** Turns *)



(** X17: when [ws.send] throws, the error message is written on the
    message just posted for this turn, no request goes out, the user
    gets the apology of the calling handler, and the turn stays reset on
    the new target. *)
Theorem send_failure_is_shown_on_the_new_message JSON_parse o response userMessage error w :
  let w' := step JSON_parse (TurnPosted o response userMessage (Some error)) w in
  platform_calls (history w')
  = platform_calls (history w)
    ++ [chat_update (channel response) (ts response) (ERROR_PREFIX ++ message error)%string]
  /\ hd_error (history w') = Some (Say (apology o))
  /\ sent_requests (history w') = sent_requests (history w)
  /\ activeTurn w' = mkActiveTurn (Some response) EmptyString 0 false.
Proof.
  unfold step. cbn [handler].
  unfold caller_catch, sendWebSocketMessage_posted, sendWebSocketMessage_catch,
    handleErrorMessage, try_catch, bind, gets, assign, modify, console_log, console_error,
    emit, throw, platform_call, property, deref, coerce, ret.
  cbn -[ERROR_PREFIX platform_calls sent_requests].
  destruct (platform w) as [| [| e] rest]; destruct o;
    cbn -[ERROR_PREFIX platform_calls sent_requests];
    repeat split; reflexivity.
Qed.

(** X18: when connecting or [say] fails, the error message is written on
    the target that is still set, the one of the previous turn, if there
    is one, and on nothing otherwise; the user gets the apology of the
    calling handler, and the turn state is not changed. *)
Theorem connect_failure_is_shown_on_the_previous_message JSON_parse o error w :
  let w' := step JSON_parse (TurnFailed o error) w in
  platform_calls (history w')
  = platform_calls (history w)
    ++ match currentMessage (activeTurn w) with
       | Some m => [chat_update (channel m) (ts m) (ERROR_PREFIX ++ message error)%string]
       | None => []
       end
  /\ hd_error (history w') = Some (Say (apology o))
  /\ activeTurn w' = activeTurn w.
Proof.
  unfold step. cbn [handler].
  unfold caller_catch, sendWebSocketMessage_catch,
    handleErrorMessage, try_catch, bind, gets, assign, modify, console_log, console_error,
    emit, throw, platform_call, property, deref, coerce, ret.
  cbn -[ERROR_PREFIX platform_calls].
  destruct (currentMessage (activeTurn w)) as [m |];
    cbn -[ERROR_PREFIX platform_calls].
  - destruct (platform w) as [| [| e] rest]; destruct o;
      cbn -[ERROR_PREFIX platform_calls]; repeat split; reflexivity.
  - destruct o; cbn; rewrite app_nil_r; repeat split; reflexivity.
Qed.

(** X19: whatever the frame, the clock and the platform, the handler of
    frames leaves the connection alone: [ws], the reconnect counter, the
    sockets and the pending reconnect timers are as before. *)
Theorem frames_leave_the_connection_alone jsonMessage now w :
  let w' := snd (on_frame jsonMessage now w) in
  connection w' = connection w
  /\ sockets w' = sockets w
  /\ timers w' = timers w.
Proof.
  cbv zeta.
  pose proof (stable_on_frame (fun w0 => (connection w0, sockets w0, timers w0))
                (fun _ _ => eq_refl) (fun _ _ => eq_refl) (fun _ _ => eq_refl)
                jsonMessage now w) as H.
  injection H as Hc Hs Ht. repeat split; assumption.
Qed.

(** ** User events *)

(** X20: messages posted by bots and messages without text go no
    further: nothing is said, nothing is handed to the relay, no socket
    is created; at most one line is logged. *)
Theorem app_message_ignores_bots_and_empty_text message w :
  SlackEvent.subtype message = Some "bot_message"
  \/ SlackEvent.text message = None
  \/ SlackEvent.text message = Some EmptyString ->
  let r := app_message message w in
  fst r = Return None
  /\ event_log_only "Received message without text:" w (snd r).
Proof.
  intros H. unfold app_message, try_catch, bind, ret, console_log, emit, modify.
  destruct message as [subtype text user]. cbn in *.
  destruct subtype as [sub |]; cbn [option_map strict_eq].
  - destruct (String.eqb sub "bot_message") eqn:Hsub.
    + split; [reflexivity | left; reflexivity].
    + destruct H as [H | [H | H]].
      * injection H as ->. discriminate.
      * rewrite H. split; [reflexivity | right; reflexivity].
      * rewrite H. split; [reflexivity | right; reflexivity].
  - destruct H as [H | [H | H]]; [discriminate | |];
      rewrite H; (split; [reflexivity | right; reflexivity]).
Qed.

Lemma app_message_ignores_bots_and_empty_text_witness :
  let w := fresh_turn sample_target [] in
  let r := app_message (SlackEvent.make (Some "bot_message") (Some "hello") (Some "B01"))
             w in
  fst r = Return None
  /\ event_log_only "Received message without text:" w (snd r).
Proof.
  apply (app_message_ignores_bots_and_empty_text
           (SlackEvent.make (Some "bot_message") (Some "hello") (Some "B01"))
           (fresh_turn sample_target [])).
  left. reflexivity.
Defined.

(** X21: a text message of a user is handed to the relay unless it is
    the word hello in any letter case.  The greeting is said and nothing
    else happens in that case; in every other case the text goes,
    unchanged, to [sendWebSocketMessage], whose first act is to ask for
    the connection. *)
Theorem app_message_relays_all_but_hello message text w :
  SlackEvent.subtype message <> Some "bot_message" ->
  SlackEvent.text message = Some text ->
  text <> EmptyString ->
  let logged := with_history (cons (ConsoleLog "Received message:")) w in
  (toLowerCase text = "hello" ->
   app_message message w
   = (Return None,
      with_history (cons (Say (GREETING (SlackEvent.user message)))) logged))
  /\ (toLowerCase text <> "hello" ->
      app_message message w = (Return (Some text), snd (establishConnection logged))).
Proof.
  intros Hsub Htext Hne.
  assert (Hbot : strict_eq (option_map JString (SlackEvent.subtype message)) "bot_message"
                 = false).
  { destruct (SlackEvent.subtype message) as [sub |]; [| reflexivity].
    cbn. apply String.eqb_neq. intros ->. now elim Hsub. }
  unfold app_message, try_catch, bind. rewrite Hbot, Htext.
  destruct text as [| c text]; [now elim Hne |].
  split; intros Hhello.
  - rewrite Hhello. reflexivity.
  - apply String.eqb_neq in Hhello. rewrite Hhello.
    unfold sendWebSocketMessage_begin, bind, console_log, emit, modify, ret.
    rewrite establishConnection_eq. destruct (ws_ready _); reflexivity.
Qed.

Lemma app_message_relays_all_but_hello_witness :
  let w := fresh_turn sample_target [] in
  let logged := with_history (cons (ConsoleLog "Received message:")) w in
  app_message (SlackEvent.make None (Some "HeLLo") (Some "U42")) w
  = (Return None, with_history (cons (Say (GREETING (Some "U42")))) logged)
  /\ app_message (SlackEvent.make None (Some "hello there") (Some "U42")) w
     = (Return (Some "hello there"), snd (establishConnection logged)).
Proof.
  split.
  - apply (app_message_relays_all_but_hello
             (SlackEvent.make None (Some "HeLLo") (Some "U42")) "HeLLo"
             (fresh_turn sample_target [])).
    + discriminate.
    + reflexivity.
    + discriminate.
    + reflexivity.
  - apply (app_message_relays_all_but_hello
             (SlackEvent.make None (Some "hello there") (Some "U42")) "hello there"
             (fresh_turn sample_target [])).
    + discriminate.
    + reflexivity.
    + discriminate.
    + discriminate.
Defined.

Lemma skip_mention_chars_id id rest :
  all_mention_chars id = true ->
  skip_mention_chars (id ++ String ">" rest) = String ">" rest.
Proof.
  induction id as [| c id IH]; intros H; [reflexivity |].
  cbn [all_mention_chars] in H. apply andb_prop in H. destruct H as [Hc Hid].
  cbn [String.append skip_mention_chars]. rewrite Hc. apply IH. exact Hid.
Qed.

Lemma match_mention_not_bracket c s :
  c <> "<"%char -> match_mention (String c s) = None.
Proof.
  intros Hc. unfold match_mention.
  destruct c as [[] [] [] [] [] [] [] []]; try reflexivity. now elim Hc.
Qed.

Lemma includes_bracket_head c s :
  includes (String c s) "<" = false -> c <> "<"%char /\ includes s "<" = false.
Proof.
  cbn [includes]. intros H. apply orb_false_elim in H. destruct H as [Hp Hs].
  split; [| exact Hs]. intros ->. destruct s; discriminate.
Qed.

(** The first mention goes, what is around it stays. *)
Lemma replace_mention_first before id rest :
  includes before "<" = false ->
  id <> EmptyString ->
  all_mention_chars id = true ->
  replace_mention (before ++ "<@" ++ id ++ ">" ++ rest) = (before ++ rest)%string.
Proof.
  intros Hb Hid Hall. induction before as [| c before IH].
  - destruct id as [| c id]; [now elim Hid |].
    cbn [all_mention_chars] in Hall. apply andb_prop in Hall. destruct Hall as [Hc Hall].
    cbn [String.append]. unfold replace_mention.
    destruct rest; cbn [match_mention]; rewrite Hc;
      change (">" ++ ?r)%string with (String ">" r);
      rewrite (skip_mention_chars_id id _ Hall); reflexivity.
  - destruct (includes_bracket_head c before Hb) as (Hc & Hrest).
    cbn [String.append replace_mention].
    rewrite (match_mention_not_bracket c _ Hc). f_equal. apply IH. exact Hrest.
Qed.

Lemma replace_mention_plain s : includes s "<" = false -> replace_mention s = s.
Proof.
  induction s as [| c s IH]; intros H; [reflexivity |].
  destruct (includes_bracket_head c s H) as (Hc & Hrest).
  cbn [replace_mention]. rewrite (match_mention_not_bracket c s Hc).
  f_equal. apply IH. exact Hrest.
Qed.

(** X22: stripping the mention removes the first mention of a user, a
    run of capital letters and digits between the markers, and nothing
    else: the text before it (free of opening brackets) and everything
    after it, later mentions included, stay as they are; a text without
    any opening bracket is left unchanged. *)
Theorem replace_mention_removes_the_first_mention before id rest :
  includes before "<" = false ->
  (id <> EmptyString ->
   all_mention_chars id = true ->
   replace_mention (before ++ "<@" ++ id ++ ">" ++ rest) = (before ++ rest)%string)
  /\ replace_mention before = before.
Proof.
  intros Hb. split.
  - intros Hid Hall. apply replace_mention_first; assumption.
  - apply replace_mention_plain. exact Hb.
Qed.

Lemma replace_mention_removes_the_first_mention_witness :
  replace_mention "ping <@U024BE7LH> and <@U999>" = "ping  and <@U999>"
  /\ replace_mention "ping " = "ping ".
Proof.
  destruct (replace_mention_removes_the_first_mention "ping " "U024BE7LH" " and <@U999>")
    as (H1 & H2).
  - reflexivity.
  - split; [apply H1; [discriminate | reflexivity] | exact H2].
Defined.

(** X23: a mention event that carries no request is answered on the
    spot and nothing is handed to the relay.  When the text is missing
    the apology is said; when the text is the mention of the bot followed
    by nothing but white space, the prompt is said.  No socket is created
    in either case. *)
Theorem app_mention_without_request_is_answered id blank user w :
  let logged := with_history (cons (ConsoleLog "Received mention:")) w in
  app_mention (SlackEvent.make None None user) w
  = (Return None,
     with_history (cons (Say (apology Mention)))
       (with_history (cons (ConsoleError "Error in app_mention handler:")) logged))
  /\ (id <> EmptyString ->
      all_mention_chars id = true ->
      trim blank = EmptyString ->
      app_mention (SlackEvent.make None (Some ("<@" ++ id ++ ">" ++ blank)%string) user) w
      = (Return None, with_history (cons (Say (MENTION_PROMPT user))) logged)).
Proof.
  cbv zeta. split; [reflexivity |].
  intros Hid Hall Hblank.
  unfold app_mention, try_catch, bind, console_log, emit, modify.
  cbn [SlackEvent.text SlackEvent.user coerce ret fst snd].
  pose proof (replace_mention_first EmptyString id blank eq_refl Hid Hall) as Hstrip.
  change (replace_mention ("<@" ++ id ++ ">" ++ blank) = blank) in Hstrip.
  rewrite Hstrip, Hblank. reflexivity.
Qed.

Lemma app_mention_without_request_is_answered_witness :
  let w := fresh_turn sample_target [] in
  let logged := with_history (cons (ConsoleLog "Received mention:")) w in
  app_mention (SlackEvent.make None (Some "<@U024BE7LH>  ") (Some "U42")) w
  = (Return None, with_history (cons (Say (MENTION_PROMPT (Some "U42")))) logged).
Proof.
  destruct (app_mention_without_request_is_answered "U024BE7LH" "  " (Some "U42")
              (fresh_turn sample_target [])) as (_ & H).
  apply H.
  - discriminate.
  - reflexivity.
  - reflexivity.
Defined.

(** X24: a mention of the bot in front of a request is stripped before
    the relay: for an event text made of the mention followed by
    [request], what goes to [sendWebSocketMessage] is [request] without
    its surrounding white space, provided that is not empty. *)
Theorem app_mention_relays_the_request id request user w :
  id <> EmptyString ->
  all_mention_chars id = true ->
  trim request <> EmptyString ->
  fst (app_mention (SlackEvent.make None (Some ("<@" ++ id ++ ">" ++ request)%string) user) w)
  = Return (Some (trim request)).
Proof.
  intros Hid Hall Hne.
  unfold app_mention, try_catch, bind, console_log, emit, modify.
  cbn [SlackEvent.text coerce ret fst snd].
  pose proof (replace_mention_first EmptyString id request eq_refl Hid Hall) as Hstrip.
  change (replace_mention ("<@" ++ id ++ ">" ++ request) = request) in Hstrip.
  rewrite Hstrip. apply String.eqb_neq in Hne. rewrite Hne.
  unfold sendWebSocketMessage_begin, bind, ret.
  rewrite establishConnection_eq. destruct (ws_ready _); reflexivity.
Qed.

Lemma app_mention_relays_the_request_witness :
  fst (app_mention
         (SlackEvent.make None (Some "<@U024BE7LH> restart the staging cluster ")
            (Some "U42"))
         (fresh_turn sample_target []))
  = Return (Some "restart the staging cluster").
Proof.
  apply (app_mention_relays_the_request "U024BE7LH" " restart the staging cluster "
           (Some "U42") (fresh_turn sample_target [])).
  - discriminate.
  - reflexivity.
  - discriminate.
Defined.
